(** * trolldb: the connection manager and the composable error model

    A shallow embedding of [trolldb/errors/errors.py] (module [Errors]), of
    [trolldb/database/mongodb.py] (module [Mongo]) and of the comparison
    helpers of [trolldb/test_utils/common.py] (module [TestUtils]), with the
    properties of the specification stated over them.

    Python objects that are mutated in place and may be shared (the message
    lists held by a [ResponseError]) live in an explicit store; exceptions,
    [SystemExit] included, are the [Raise] outcome of a computation. *)

From Stdlib Require Import ZArith String List Bool Lia.
From stdpp Require Import base option list strings numbers gmap.

Local Open Scope Z_scope.
Local Open Scope string_scope.
Local Open Scope list_scope.

(** ** trolldb/errors/errors.py *)
Module Errors.

Definition StatusCode := Z.

(** A message value is [str | list[str]].  A list is an object: the value
    holds its address in the store. *)
Inductive Msg : Type :=
| MStr (s : string)
| MList (l : nat).

#[global] Instance Msg_eq_dec : EqDecision Msg.
Proof. solve_decision. Defined.

(** The store of list objects; allocation appends. *)
Abbreviation Heap := (list (list string)).

Definition deref (h : Heap) (l : nat) : list string := default [] (h !! l).

Definition alloc (v : list string) (h : Heap) : nat * Heap :=
  (List.length h, h ++ [v]).

(** [lst.extend(items)]: in place. *)
Definition extend (l : nat) (items : list string) (h : Heap) : Heap :=
  alter (fun old => old ++ items) l h.

(** [OrderedDict]: keys in insertion order, each key once. *)
Abbreviation OrderedDict := (list (StatusCode * Msg)).

Fixpoint od_get {V : Type} (d : list (StatusCode * V)) (key : StatusCode) : option V :=
  match d with
  | [] => None
  | (k, v) :: d' => if Z.eqb k key then Some v else od_get d' key
  end.

(** [d[key] = v]: an existing key keeps its position, a new one goes last. *)
Fixpoint od_set {V : Type} (d : list (StatusCode * V)) (key : StatusCode) (v : V)
  : list (StatusCode * V) :=
  match d with
  | [] => [(key, v)]
  | (k, w) :: d' => if Z.eqb k key then (k, v) :: d' else (k, w) :: od_set d' key v
  end.

(** [_listify(item)]: the same list object for a list, a new one-element
    list for a string. *)
Definition _listify (item : Msg) (h : Heap) : nat * Heap :=
  match item with
  | MList l => (l, h)
  | MStr s => alloc [s] h
  end.

(** [delimiter.join(items)] *)
Fixpoint join (delimiter : string) (items : list string) : string :=
  match items with
  | [] => ""
  | [s] => s
  | s :: rest => s +:+ delimiter +:+ join delimiter rest
  end.

(** [_stringify(item, delimiter)] *)
Definition _stringify (item : Msg) (delimiter : string) (h : Heap) : string * Heap :=
  let '(l, h1) := _listify item h in
  (join delimiter (deref h1 l), h1).

(** [ResponseError]: the private [__dict].  (The attribute
    [extra_information] is set to [None] by [__init__] and never read.) *)
Record ResponseError : Type := mkResponseError { __dict : OrderedDict }.

#[global] Instance ResponseError_eq_dec : EqDecision ResponseError.
Proof. solve_decision. Defined.

Definition descriptor_delimiter : string := " |OR| ".

(** Truth value of [buff.get(key, None)]: [None], the empty string and the
    empty list are false. *)
Definition truthy (h : Heap) (m : option Msg) : bool :=
  match m with
  | None => false
  | Some (MStr s) => negb (String.eqb s "")
  | Some (MList l) => match deref h l with [] => false | _ => true end
  end.

(** One turn of the loop of [__or__]:
    [self_msg = buff.get(key, None)],
    [buff[key] = _listify(self_msg) if self_msg else []],
    [buff[key].extend(_listify(msg))]. *)
Definition or_step (st : OrderedDict * Heap) (item : StatusCode * Msg)
  : OrderedDict * Heap :=
  let '(buff, h) := st in
  let '(key, msg) := item in
  let self_msg := od_get buff key in
  let '(l, h1) :=
    match self_msg with
    | Some m => if truthy h self_msg then _listify m h else alloc [] h
    | None => alloc [] h
    end in
  let buff' := od_set buff key (MList l) in
  let '(lm, h2) := _listify msg h1 in
  (buff', extend l (deref h2 lm) h2).

(** [self | other] *)
Definition __or__ (self other : ResponseError) (h : Heap) : ResponseError * Heap :=
  let '(buff, h') := fold_left or_step (__dict other) (__dict self, h) in
  (mkResponseError buff, h').

(** *** [ResponsesErrorGroup] *)

(** An attribute of a class: a [ResponseError], or any other object (the
    module name, the doc string, a method, ...). *)
Inductive Attribute : Type :=
| AError (e : ResponseError)
| AOther.

(** [cls.__dict__]: the attributes the class itself defines, in the order of
    their definition. *)
Abbreviation ClassDict := (list (string * Attribute)).

(** [fields]: [{k: v for k, v in cls.__dict__.items() if isinstance(v, ResponseError)}] *)
Definition fields (cls : ClassDict) : list (string * ResponseError) :=
  omap (fun kv => match snd kv with
                  | AError e => Some (fst kv, e)
                  | AOther => None
                  end) cls.

(** One turn of the loop of [union]: [buff = v] the first time, [buff |= v]
    afterwards; [ResponseError] has no [__ior__], so [buff |= v] is
    [buff = buff | v]. *)
Definition union_step (st : option ResponseError * Heap) (v : ResponseError)
  : option ResponseError * Heap :=
  let '(buff, h) := st in
  match buff with
  | None => (Some v, h)
  | Some e => let '(r, h') := __or__ e v h in (Some r, h')
  end.

(** [union]: [None] is Python's [None]. *)
Definition union (cls : ClassDict) (h : Heap) : option ResponseError * Heap :=
  fold_left union_step (map snd (fields cls)) (None, h).

(** *** Outcomes of calls *)

(** The exceptions the two modules raise or let through.  [exit(code)] raises
    [SystemExit(code)]; left uncaught it ends the process with that code.  A
    [ResponseError] is itself an exception and can be raised. *)
Inductive Exc : Type :=
| SystemExit (code : Z)
| ValueError (msg : string)
| KeyError (code : StatusCode)
| TypeError
| AttributeError
| ConnectionFailure
| ServerSelectionTimeoutError
| PyMongoError
| Raised (e : ResponseError).

Inductive Result (A : Type) : Type :=
| Ret (a : A)
| Raise (x : Exc).

Arguments Ret {A} a.
Arguments Raise {A} x.

(** [extra_information: dict | None], a dictionary of strings. *)
Definition ExtraInformation := option (list (string * string)).

(** Python's [str] of a dictionary, as the f-string of [get_error_details]
    calls it. *)
Class DictStr := dict_str : list (string * string) -> string.

(** [__retrieve_one_from_some(status_code)], a [match] on
    [(status_code, len(self.__dict))]. *)
Definition __retrieve_one_from_some (self : ResponseError)
    (status_code : option StatusCode) : Result (StatusCode * Msg) :=
  match status_code, __dict self with
  | None, _ :: _ :: _ =>
      Raise (ValueError
        "In case of multiple response status codes, the status code must be specified.")
  | Some sc, _ :: _ =>
      match od_get (__dict self) sc with
      | Some m => Ret (sc, m)
      | None => Raise (KeyError sc)
      end
  | _, [kv] => Ret kv
  | _, _ => Ret (500, MStr "Generic Response Error")
  end.

Section Details.
Context `{DictStr}.

(** The suffix [f" :=> {extra_information}" if extra_information else ""]:
    [None] and the empty dictionary are false. *)
Definition extra_suffix (extra_information : ExtraInformation) : string :=
  match extra_information with
  | Some (kv :: rest) => " :=> " +:+ dict_str (kv :: rest)
  | _ => ""
  end.

(** [get_error_details(extra_information, status_code)]; [msg + "..."] is a
    [TypeError] when [msg] is a list. *)
Definition get_error_details (self : ResponseError)
    (extra_information : ExtraInformation) (status_code : option StatusCode)
  : Result (StatusCode * string) :=
  match __retrieve_one_from_some self status_code with
  | Raise x => Raise x
  | Ret (sc, MStr msg) => Ret (sc, msg +:+ extra_suffix extra_information)
  | Ret (sc, MList _) => Raise TypeError
  end.

(** What reaches the log: [msg, _ = self.get_error_details(...)] binds [msg]
    to the first component of the pair, the status code, and that is what
    [logger.warning(msg)] and [logger.error(msg)] receive. *)
Inductive Level : Type := WARNING | ERROR.

Record LogRecord : Type := mkLog { level : Level; logged : StatusCode }.

Definition Logger := list LogRecord.

(** [log_as_warning(extra_information, status_code)] *)
Definition log_as_warning (self : ResponseError)
    (extra_information : ExtraInformation) (status_code : option StatusCode)
    (lg : Logger) : Result unit * Logger :=
  match get_error_details self extra_information status_code with
  | Raise x => (Raise x, lg)
  | Ret (msg, _) => (Ret tt, lg ++ [mkLog WARNING msg])
  end.

(** [sys_exit_log(exit_code, extra_information, status_code)] *)
Definition sys_exit_log (self : ResponseError) (exit_code : Z)
    (extra_information : ExtraInformation) (status_code : option StatusCode)
    (lg : Logger) : Result unit * Logger :=
  match get_error_details self extra_information status_code with
  | Raise x => (Raise x, lg)
  | Ret (msg, _) => (Raise (SystemExit exit_code), lg ++ [mkLog ERROR msg])
  end.

End Details.

(** A dictionary key of the descriptor: a string, or the typing object
    [Literal[...]] built over a string. *)
Inductive DescriptorKey : Type :=
| KStr (s : string)
| KLiteral (s : string).

#[global] Instance DescriptorKey_eq_dec : EqDecision DescriptorKey.
Proof. solve_decision. Defined.

Definition Descriptor := list (StatusCode * list (DescriptorKey * string)).

(** One entry of the comprehension of [fastapi_descriptor]:
    [status: {Literal["description"]: _stringify(msg, self.descriptor_delimiter)}]. *)
Definition descriptor_step (st : Descriptor * Heap) (item : StatusCode * Msg)
  : Descriptor * Heap :=
  let '(acc, h) := st in
  let '(status, msg) := item in
  let '(s, h1) := _stringify msg descriptor_delimiter h in
  (acc ++ [(status, [(KLiteral "description", s)])], h1).

(** The property [fastapi_descriptor]. *)
Definition fastapi_descriptor (self : ResponseError) (h : Heap) : Descriptor * Heap :=
  fold_left descriptor_step (__dict self) ([], h).

(** [descriptor[status][key]] *)
Definition descriptor_lookup (d : Descriptor) (status : StatusCode)
    (key : DescriptorKey) : option string :=
  match list_find (fun e => fst e = status) d with
  | Some (_, (_, inner)) =>
      match list_find (fun e => fst e = key) inner with
      | Some (_, (_, v)) => Some v
      | None => None
      end
  | None => None
  end.

(** An error constant that [log_as_warning] and [sys_exit_log] can resolve
    without a status code: no entry, or one entry with a string message.
    [logged_status] is the status code they then pass to the logger. *)
Definition resolvable (e : ResponseError) : bool :=
  match __dict e with
  | [] => true
  | [(_, MStr _)] => true
  | _ => false
  end.

Definition logged_status (e : ResponseError) : StatusCode :=
  match __dict e with
  | [(k, _)] => k
  | _ => 500
  end.

(** *** Error values of the examples *)

(** [{400: "A"}], [{400: "B"}] and [{404: "B"}]. *)
Definition error_400_A : ResponseError := mkResponseError [(400, MStr "A")].
Definition error_400_B : ResponseError := mkResponseError [(400, MStr "B")].
Definition error_404_B : ResponseError := mkResponseError [(404, MStr "B")].

(** [{400: ""}], an empty message. *)
Definition error_400_empty : ResponseError := mkResponseError [(400, MStr "")].

(** [{400: ["A"]}]: the list is the object at address 0 of [store_A]. *)
Definition error_400_list_A : ResponseError := mkResponseError [(400, MList 0)].
Definition store_A : Heap := [["A"]].

(** [{400: ["A", "B"], 404: "B"}], the list at address 0 of [store_AB]. *)
Definition error_combined : ResponseError :=
  mkResponseError [(400, MList 0); (404, MStr "B")].
Definition store_AB : Heap := [["A"; "B"]].

(** The messages under a value, as [_listify] shows them. *)
Definition messages (h : Heap) (m : Msg) : list string :=
  match m with
  | MStr s => [s]
  | MList l => deref h l
  end.

(** An error value as the ordered mapping from status codes to message
    lists. *)
Definition view (h : Heap) (e : ResponseError) : list (StatusCode * list string) :=
  map (fun kv => (fst kv, messages h (snd kv))) (__dict e).

(** Every list a dictionary refers to is in the store. *)
Definition od_wf (h : Heap) (d : OrderedDict) : Prop :=
  forall k l, (k, MList l) ∈ d -> (l < List.length h)%nat.

(** Operands of a combination.  In a dictionary no list object is held
    under two status codes; two dictionaries share no list object; no
    message is the bare empty string. *)
Definition od_separate (d : OrderedDict) : Prop :=
  forall k k' l, (k, MList l) ∈ d -> (k', MList l) ∈ d -> k = k'.

Definition od_disjoint (a b : OrderedDict) : Prop :=
  forall k k' l, (k, MList l) ∈ a -> (k', MList l) ∈ b -> False.

Definition od_no_empty (d : OrderedDict) : Prop :=
  forall k, (k, MStr "") ∉ d.

(** A dictionary as Python holds it in store [h]: every key once, every
    list a live object. *)
Definition od_ok (h : Heap) (d : OrderedDict) : Prop :=
  NoDup (map fst d) /\ od_wf h d /\ od_separate d.

(** An error value built from a literal whose messages are all strings, and
    the same literal as a mapping from status codes to message lists. *)
Definition of_strings (d : list (StatusCode * string)) : ResponseError :=
  mkResponseError (map (fun kv => (fst kv, MStr (snd kv))) d).

Definition as_lists (d : list (StatusCode * string)) : list (StatusCode * list string) :=
  map (fun kv => (fst kv, [snd kv])) d.

(** The combination in the words of the specification, on mappings from
    status codes to message lists: the codes of [a] in their order, each
    with the messages of [a] followed by the messages [b] has under the
    same code, and then the codes that only [b] has, in the order of [b]. *)
Definition combine_spec (a b : list (StatusCode * list string))
  : list (StatusCode * list string) :=
  map (fun kv => (fst kv, snd kv ++ default [] (od_get b (fst kv)))) a
  ++ filter (fun kv => od_get a (fst kv) = None) b.

(** The descriptor in the words of the specification: every code with its
    messages joined by the delimiter, under one key. *)
Definition descriptor_spec (key : DescriptorKey) (v : list (StatusCode * list string))
  : Descriptor :=
  map (fun kv => (fst kv, [(key, join descriptor_delimiter (snd kv))])) v.

End Errors.

(** ** trolldb/database/mongodb.py *)
Module Mongo.
Import Errors.

(** [errno.EIO] and [errno.ENODATA] (Linux). *)
Definition EIO : Z := 5.
Definition ENODATA : Z := 61.

(** Modelled from the spec: [trolldb.config.config.DatabaseConfig] is not
    among the sources.  A configuration holds the connection URL, the
    selection timeout, and the names of the main database and of the main
    collection; the fields are the ones [initialize] reads. *)
Record DatabaseConfig : Type := mkDatabaseConfig {
  url : string;
  timeout : Z;
  main_database_name : string;
  main_collection_name : string }.

#[global] Instance DatabaseConfig_eq_dec : EqDecision DatabaseConfig.
Proof. solve_decision. Defined.

(** Modelled from the spec: the error constants of [trolldb.database.errors]
    (groups [Client], [Databases] and [Collections]) are not among the
    sources; the ones [mongodb.py] names are taken as parameters. *)
Record DatabaseErrors : Type := mkDatabaseErrors {
  Client_AlreadyOpenError : ResponseError;
  Client_InconsistencyError : ResponseError;
  Client_ReinitializeConfigError : ResponseError;
  Client_ConnectionError : ResponseError;
  Client_CloseNotAllowedError : ResponseError;
  Databases_NotFoundError : ResponseError;
  Collections_NotFoundError : ResponseError;
  Collections_WrongTypeError : ResponseError }.

(** *** The driver boundary (motor) *)

(** Handles are references: building one reaches no server. *)
Record AsyncIOMotorClient : Type := mkClient {
  client_url : string;
  serverSelectionTimeoutMS : Z }.

Record AsyncIOMotorDatabase : Type := mkDatabase {
  database_client : AsyncIOMotorClient;
  database_name : string }.

Record AsyncIOMotorCollection : Type := mkCollection {
  collection_database : AsyncIOMotorDatabase;
  collection_name : string }.

#[global] Instance AsyncIOMotorClient_eq_dec : EqDecision AsyncIOMotorClient.
Proof. solve_decision. Defined.
#[global] Instance AsyncIOMotorDatabase_eq_dec : EqDecision AsyncIOMotorDatabase.
Proof. solve_decision. Defined.
#[global] Instance AsyncIOMotorCollection_eq_dec : EqDecision AsyncIOMotorCollection.
Proof. solve_decision. Defined.

(** What the server answers to the two listing calls, for a client and for
    a database handle: the names, or the exception the driver raises. *)
Record Server : Type := mkServer {
  server_database_names : AsyncIOMotorClient -> Result (list string);
  server_collection_names : AsyncIOMotorDatabase -> Result (list string) }.

(** *** The class state *)

(** The four private class attributes of [MongoDB]. *)
Record MongoDB : Type := mkMongoDB {
  __client : option AsyncIOMotorClient;
  __database_config : option DatabaseConfig;
  __main_collection : option AsyncIOMotorCollection;
  __main_database : option AsyncIOMotorDatabase }.

(** The process: the class attributes, the log, and the clients on which
    [close()] has been called, in order. *)
Record Process : Type := mkProcess {
  cls : MongoDB;
  logger : Logger;
  closed : list AsyncIOMotorClient }.

(** The attributes as the class body sets them. *)
Definition class_body : MongoDB :=
  {| __client := None; __database_config := None;
     __main_collection := None; __main_database := None |}.

Definition start : Process :=
  {| cls := class_body; logger := []; closed := [] |}.

(** *** Computations over the process *)

Definition M (A : Type) : Type := Process -> Result A * Process.

Definition ret {A} (a : A) : M A := fun p => (Ret a, p).

Definition raise {A} (x : Exc) : M A := fun p => (Raise x, p).

Definition bind {A B} (c : M A) (k : A -> M B) : M B :=
  fun p => match c p with
           | (Ret a, p') => k a p'
           | (Raise x, p') => (Raise x, p')
           end.

Notation "x <- c ;; k" := (bind c (fun x => k))
  (at level 100, c at next level, right associativity).
Notation "c ;;; k" := (bind c (fun _ => k))
  (at level 100, right associativity).

Definition get_cls : M MongoDB := fun p => (Ret (cls p), p).

Definition set_cls (f : MongoDB -> MongoDB) : M unit :=
  fun p => (Ret tt, {| cls := f (cls p); logger := logger p; closed := closed p |}).

(** Calls of the error model write to the log of the process. *)
Definition with_logger (f : Logger -> Result unit * Logger) : M unit :=
  fun p => let '(r, lg) := f (logger p) in
           (r, {| cls := cls p; logger := lg; closed := closed p |}).

(** An awaited driver call: its answer, or its exception. *)
Definition await {A} (r : Result A) : M A := fun p => (r, p).

(** [client.close()] *)
Definition client_close (c : AsyncIOMotorClient) : M unit :=
  fun p => (Ret tt, {| cls := cls p; logger := logger p; closed := closed p ++ [c] |}).

(** [try: c  except (ConnectionFailure, ServerSelectionTimeoutError): handler] *)
Definition try_except_connection {A} (c : M A) (handler : M A) : M A :=
  fun p => match c p with
           | (Raise ConnectionFailure, p') => handler p'
           | (Raise ServerSelectionTimeoutError, p') => handler p'
           | other => other
           end.

Definition set_client (c : option AsyncIOMotorClient) (st : MongoDB) : MongoDB :=
  {| __client := c; __database_config := __database_config st;
     __main_collection := __main_collection st; __main_database := __main_database st |}.

Definition set_database_config (c : option DatabaseConfig) (st : MongoDB) : MongoDB :=
  {| __client := __client st; __database_config := c;
     __main_collection := __main_collection st; __main_database := __main_database st |}.

Definition set_main_collection (c : option AsyncIOMotorCollection) (st : MongoDB) : MongoDB :=
  {| __client := __client st; __database_config := __database_config st;
     __main_collection := c; __main_database := __main_database st |}.

Definition set_main_database (d : option AsyncIOMotorDatabase) (st : MongoDB) : MongoDB :=
  {| __client := __client st; __database_config := __database_config st;
     __main_collection := __main_collection st; __main_database := d |}.

(** *** The class methods *)

Section Methods.
Context `{DictStr}.
Variable errs : DatabaseErrors.
Variable server : Server.

(** Lines 149-173 of [initialize]: make the client reference, probe the
    server, check the main database and the main collection. *)
Definition connect (database_config : DatabaseConfig) : M unit :=
  let client := mkClient (url database_config) (timeout database_config) in
  set_cls (set_client (Some client)) ;;;
  __database_names <-
    try_except_connection
      (await (server_database_names server client))
      (with_logger (sys_exit_log (Client_ConnectionError errs) EIO
                      (Some [("url", url database_config)]) None) ;;;
       ret []) ;;
  let err_extra_information := [("database_name", main_database_name database_config)] in
  (if bool_decide (main_database_name database_config ∈ __database_names)
   then ret tt
   else with_logger (sys_exit_log (Databases_NotFoundError errs) ENODATA
                       (Some err_extra_information) None)) ;;;
  let main_database := mkDatabase client (main_database_name database_config) in
  set_cls (set_main_database (Some main_database)) ;;;
  let err_extra_information :=
    err_extra_information ++ [("collection_name", main_collection_name database_config)] in
  collection_names <- await (server_collection_names server main_database) ;;
  (if bool_decide (main_collection_name database_config ∈ collection_names)
   then ret tt
   else with_logger (sys_exit_log (Collections_NotFoundError errs) ENODATA
                       (Some err_extra_information) None)) ;;;
  set_cls (set_main_collection
             (Some (mkCollection main_database (main_collection_name database_config)))).

(** [MongoDB.initialize(database_config)].  Lines 139-145 are the guard on
    the cached configuration; no line assigns [__database_config]. *)
Definition initialize (database_config : DatabaseConfig) : M unit :=
  st <- get_cls ;;
  match __database_config st with
  | Some cached =>
      if bool_decide (database_config = cached) then
        match __client st with
        | Some _ =>
            with_logger (log_as_warning (Client_AlreadyOpenError errs) None None)
        | None =>
            with_logger (sys_exit_log (Client_InconsistencyError errs) EIO None None) ;;;
            connect database_config
        end
      else
        with_logger (sys_exit_log (Client_ReinitializeConfigError errs) EIO None None) ;;;
        connect database_config
  | None => connect database_config
  end.

(** [MongoDB.close()] *)
Definition close : M unit :=
  st <- get_cls ;;
  match __client st with
  | Some client =>
      set_cls (set_database_config None) ;;;
      client_close client
  | None =>
      with_logger (sys_exit_log (Client_CloseNotAllowedError errs) EIO None None)
  end.

(** [MongoDB.list_database_names()]: no guard; on [None] the attribute
    access fails. *)
Definition list_database_names : M (list string) :=
  st <- get_cls ;;
  match __client st with
  | Some client => await (server_database_names server client)
  | None => raise AttributeError
  end.

(** [MongoDB.main_collection()] and [MongoDB.main_database()] *)
Definition main_collection : M (option AsyncIOMotorCollection) :=
  st <- get_cls ;; ret (__main_collection st).

Definition main_database : M (option AsyncIOMotorDatabase) :=
  st <- get_cls ;; ret (__main_database st).

(** [MongoDB.get_database(database_name)].  [DatabaseName(name=...).name]
    gives back a [str | None] argument unchanged. *)
Definition get_database (database_name : option string)
  : M (option AsyncIOMotorDatabase) :=
  match database_name with
  | None => main_database
  | Some name =>
      names <- list_database_names ;;
      if bool_decide (name ∈ names) then
        st <- get_cls ;;
        match __client st with
        | Some client => ret (Some (mkDatabase client name))
        | None => raise AttributeError
        end
      else raise (Raised (Databases_NotFoundError errs))
  end.

(** [MongoDB.get_collection(database_name, collection_name)] *)
Definition get_collection (database_name collection_name : option string)
  : M (option AsyncIOMotorCollection) :=
  match database_name, collection_name with
  | None, None => main_collection
  | Some dname, Some cname =>
      db <- get_database (Some dname) ;;
      match db with
      | Some db =>
          names <- await (server_collection_names server db) ;;
          if bool_decide (cname ∈ names) then ret (Some (mkCollection db cname))
          else raise (Raised (Collections_NotFoundError errs))
      | None => raise AttributeError
      end
  | _, _ => raise (Raised (Collections_WrongTypeError errs))
  end.

(** [try: c  finally: f]: [f] runs on every way out of [c]; what [f] raises
    replaces the outcome of [c]. *)
Definition try_finally {A} (c : M A) (f : M unit) : M A :=
  fun p => match c p with
           | (r, p') =>
               match f p' with
               | (Ret _, p'') => (r, p'')
               | (Raise x, p'') => (Raise x, p'')
               end
           end.

(** [async with mongodb_context(database_config): body], the generator
    [try: await MongoDB.initialize(database_config); yield
     finally: MongoDB.close()] run around [body]. *)
Definition mongodb_context {A} (database_config : DatabaseConfig) (body : M A) : M A :=
  try_finally (initialize database_config ;;; body) close.

End Methods.

(** *** The processes the methods produce *)

Section Reachable.
Context `{DictStr}.
Variable errs : DatabaseErrors.
Variable server : Server.

(** From the class body, by calls of [initialize] and [close], whatever
    their outcome (a [SystemExit] can be caught, as a test does).  The
    other methods leave the process as it is. *)
Inductive reachable : Process -> Prop :=
| reachable_start : reachable start
| reachable_initialize (database_config : DatabaseConfig) (p : Process) :
    reachable p -> reachable (snd (initialize errs server database_config p))
| reachable_close (p : Process) :
    reachable p -> reachable (snd (close errs p)).

(** The process once [initialize] has stored the client reference. *)
Definition with_client (database_config : DatabaseConfig) (p : Process) : Process :=
  {| cls := set_client
              (Some (mkClient (url database_config) (timeout database_config))) (cls p);
     logger := logger p; closed := closed p |}.

(** The process once [initialize] has also stored the main database. *)
Definition with_main_database (database_config : DatabaseConfig) (p : Process) : Process :=
  {| cls := set_main_database
              (Some (mkDatabase (mkClient (url database_config) (timeout database_config))
                       (main_database_name database_config)))
              (cls (with_client database_config p));
     logger := logger p; closed := closed p |}.

(** [r] is the outcome of leaving a method through
    [e.sys_exit_log(code, extra)] in process [p]: the call decides the
    outcome and the process; a resolvable [e] makes it [SystemExit(code)];
    and a context that is not empty is rendered at the end of the message
    of the details the call resolves. *)
Definition exits (e : ResponseError) (code : Z) (extra : ExtraInformation)
    (p : Process) (r : Result unit * Process) : Prop :=
  r = with_logger (sys_exit_log e code extra None) p
  /\ (resolvable e = true -> fst r = Raise (SystemExit code))
  /\ (forall kv rest, resolvable e = true -> extra = Some (kv :: rest) ->
      exists k m, get_error_details e extra None
                  = Ret (k, m +:+ " :=> " +:+ dict_str (kv :: rest))).

(** [r] is the outcome of leaving a method through
    [e.sys_exit_log(code, context)] in process [p] as the code has it: the
    details the call resolves are a status code and the message followed by
    the rendered context; the call raises [SystemExit(code)]; and the one
    record it adds to the log is the first component of those details, the
    status code.  The message and the context go nowhere. *)
Definition exits_logging_code (e : ResponseError) (code : Z)
    (context : list (string * string)) (p : Process) (r : Result unit * Process) : Prop :=
  exists (sc : StatusCode) (m : string),
    get_error_details e (Some context) None
    = Ret (sc, m +:+ " :=> " +:+ dict_str context)
    /\ r = (Raise (SystemExit code),
            {| cls := cls p; logger := logger p ++ [mkLog ERROR sc]; closed := closed p |}).

End Reachable.

(** *** A test deployment *)

(** The database settings of [make_test_app_config]. *)
Definition test_database_config : DatabaseConfig :=
  {| url := "mongodb://localhost:28017"; timeout := 1000;
     main_database_name := "mock_database";
     main_collection_name := "mock_collection" |}.

(** A server at that URL holding [mock_database] with [mock_collection];
    any other URL is unreachable. *)
Definition test_server : Server :=
  {| server_database_names := fun c =>
       if String.eqb (client_url c) "mongodb://localhost:28017"
       then Ret ["admin"; "config"; "local"; "mock_database"]
       else Raise ServerSelectionTimeoutError;
     server_collection_names := fun d =>
       if String.eqb (database_name d) "mock_database"
       then Ret ["mock_collection"; "other_collection"]
       else Ret [] |}.

(** Error constants with one status code and one message each. *)
Definition test_errors : DatabaseErrors :=
  {| Client_AlreadyOpenError := mkResponseError [(100, MStr "already open")];
     Client_InconsistencyError := mkResponseError [(405, MStr "inconsistent state")];
     Client_ReinitializeConfigError :=
       mkResponseError [(405, MStr "already initialized with another configuration")];
     Client_ConnectionError := mkResponseError [(400, MStr "could not connect")];
     Client_CloseNotAllowedError := mkResponseError [(405, MStr "close not allowed")];
     Databases_NotFoundError := mkResponseError [(404, MStr "database not found")];
     Collections_NotFoundError := mkResponseError [(404, MStr "collection not found")];
     Collections_WrongTypeError := mkResponseError [(422, MStr "wrong type")] |}.

(** A rendering of dictionaries for the test deployment. *)
Definition test_dict_str : DictStr :=
  fun d => "{" +:+ join ", " (map (fun kv => fst kv +:+ ": " +:+ snd kv) d) +:+ "}".

(** The same deployment asked for a collection it does not hold, for its
    second collection, and at a URL where nothing listens. *)
Definition ghost_config : DatabaseConfig :=
  {| url := "mongodb://localhost:28017"; timeout := 1000;
     main_database_name := "mock_database";
     main_collection_name := "ghost" |}.

Definition other_config : DatabaseConfig :=
  {| url := "mongodb://localhost:28017"; timeout := 1000;
     main_database_name := "mock_database";
     main_collection_name := "other_collection" |}.

Definition unreachable_config : DatabaseConfig :=
  {| url := "mongodb://localhost:28018"; timeout := 1000;
     main_database_name := "mock_database";
     main_collection_name := "mock_collection" |}.

(** The methods in the test deployment. *)
Definition test_initialize : DatabaseConfig -> M unit :=
  @initialize test_dict_str test_errors test_server.

Definition test_close : M unit := @close test_dict_str test_errors.

End Mongo.

(** * The test helpers: [trolldb.test_utils.common] *)

Module TestUtils.

(** The objects the helpers compare: lists and tuples of strings,
    dictionaries from strings to strings (in insertion order, every key
    once), and strings. *)
Inductive Value : Type :=
| VList (items : list string)
| VTuple (items : list string)
| VDict (items : list (string * string))
| VStr (s : string).

(** What [_ordered] returns: the same objects, and [set] and
    [OrderedDict]. *)
Inductive Normal : Type :=
| NList (items : list string)
| NTuple (items : list string)
| NSet (items : gset string)
| NDict (items : list (string * string))
| NOrderedDict (items : list (string * string))
| NStr (s : string).

(** [_ordered(obj)], with the flag [ordered] of the enclosing call. *)
Definition _ordered (ordered : bool) (obj : Value) : Normal :=
  match obj with
  | VList items => if negb ordered then NSet (list_to_set items) else NList items
  | VTuple items => if negb ordered then NSet (list_to_set items) else NTuple items
  | VDict items => if ordered then NOrderedDict items else NDict items
  | VStr s => NStr s
  end.

(** [a == b].  Two [OrderedDict]s are compared in order, a dictionary and
    any other mapping as mappings; objects of different kinds are not
    equal. *)
Definition py_eq (a b : Normal) : bool :=
  match a, b with
  | NList xs, NList ys => bool_decide (xs = ys)
  | NTuple xs, NTuple ys => bool_decide (xs = ys)
  | NSet xs, NSet ys => bool_decide (xs = ys)
  | NOrderedDict xs, NOrderedDict ys => bool_decide (xs = ys)
  | NDict xs, NDict ys
  | NDict xs, NOrderedDict ys
  | NOrderedDict xs, NDict ys =>
      bool_decide (list_to_map xs =@{gmap string string} list_to_map ys)
  | NStr s, NStr t => bool_decide (s = t)
  | _, _ => false
  end.

(** A call returns a boolean or raises [AssertionError]. *)
Inductive Outcome : Type :=
| Returns (b : bool)
| AssertionError.

Definition assert_equal (test expected : Value) (ordered silent : bool) : Outcome :=
  if py_eq (_ordered ordered test) (_ordered ordered expected) then Returns true
  else if silent then Returns false
  else AssertionError.

(** [assert_equal(test_collection_names, expected_collection_name, silent=True)] *)
Definition collections_exists (test_collection_names expected_collection_name : list string)
  : Outcome :=
  assert_equal (VList test_collection_names) (VList expected_collection_name) false true.

(** [assert_equal(test_ids, expected_ids, silent=True)] *)
Definition document_ids_are_correct (test_ids expected_ids : list string) : Outcome :=
  assert_equal (VList test_ids) (VList expected_ids) false true.

End TestUtils.

(** * Properties *)

Import Errors Mongo.

(** ** The store *)

Lemma deref_app_l (h h' : Heap) (l : nat) :
  (l < List.length h)%nat -> deref (h ++ h') l = deref h l.
Proof.
  intros Hl. unfold deref. now rewrite lookup_app_l.
Qed.

Lemma deref_alloc (h : Heap) (v : list string) :
  deref (snd (alloc v h)) (fst (alloc v h)) = v.
Proof.
  unfold deref, alloc; simpl.
  now rewrite list_lookup_middle.
Qed.

(** [_listify] returns an address that holds the messages of the value, and
    only appends to the store. *)
Lemma listify_spec (h : Heap) (m : Msg) :
  (forall l, m = MList l -> (l < List.length h)%nat) ->
  exists h', snd (_listify m h) = h ++ h' /\
             deref (snd (_listify m h)) (fst (_listify m h)) = messages h m.
Proof.
  intros Hwf. destruct m as [s | l]; simpl.
  - exists [[s]]. split; [reflexivity |].
    apply (deref_alloc h [s]).
  - exists []. rewrite app_nil_r. split; reflexivity.
Qed.

(** ** The error model *)

(** The first example of the merge: [{400: "A"} | {400: "B"}] holds
    [["A", "B"]] under 400. *)
Example or_same_code :
  view (snd (__or__ error_400_A error_400_B [])) (fst (__or__ error_400_A error_400_B []))
  = [(400, ["A"; "B"])].
Proof. reflexivity. Qed.

(** The second example: [{400: "A"} | {404: "B"}] keeps 400 first and adds
    404 after it; the new message is stored as a one-element list. *)
Example or_new_code :
  fst (__or__ error_400_A error_404_B []) = mkResponseError [(400, MStr "A"); (404, MList 0)]
  /\ view (snd (__or__ error_400_A error_404_B [])) (fst (__or__ error_400_A error_404_B []))
     = [(400, ["A"]); (404, ["B"])].
Proof. split; reflexivity. Qed.

(** C6: [{400: ""} | {400: "B"}] holds only [["B"]] under 400: the empty
    message of the left operand is tested for truth, found false, and left
    out, where the merge of the message lists is [["", "B"]]. *)
Theorem or_drops_empty_message :
  view [] error_400_empty = [(400, [""])]
  /\ view [] error_400_B = [(400, ["B"])]
  /\ view (snd (__or__ error_400_empty error_400_B []))
          (fst (__or__ error_400_empty error_400_B []))
     = [(400, ["B"])].
Proof. repeat split; reflexivity. Qed.

(** C7: in [{400: ["A"]} | {400: "B"}] the list object of the left operand
    is extended in place: the operand read [{400: ["A"]}] before the
    combination and reads [{400: ["A", "B"]}] after it. *)
Theorem or_extends_list_of_left_operand :
  view store_A error_400_list_A = [(400, ["A"])]
  /\ view (snd (__or__ error_400_list_A error_400_B store_A)) error_400_list_A
     = [(400, ["A"; "B"])].
Proof. split; reflexivity. Qed.

(** C9: the descriptor of [{400: ["A", "B"], 404: "B"}] joins the messages
    of 400 into ["A |OR| B"], under the key [Literal["description"]]; the
    string ["description"] is not a key of the entry. *)
Theorem fastapi_descriptor_combined :
  fst (fastapi_descriptor error_combined store_AB)
  = [(400, [(KLiteral "description", "A |OR| B")]);
     (404, [(KLiteral "description", "B")])]
  /\ descriptor_lookup (fst (fastapi_descriptor error_combined store_AB))
       400 (KLiteral "description") = Some "A |OR| B"
  /\ descriptor_lookup (fst (fastapi_descriptor error_combined store_AB))
       400 (KStr "description") = None.
Proof. repeat split; reflexivity. Qed.

(** ** Ordered dictionaries *)

Section OrderedDictFacts.
Context {V W : Type}.
Implicit Types (d : list (StatusCode * V)) (k : StatusCode).

Lemma od_get_map (f : V -> W) d k :
  od_get (map (fun kv => (fst kv, f (snd kv))) d) k = f <$> od_get d k.
Proof.
  induction d as [| [k' v] d IH]; [reflexivity |].
  cbn. now destruct (Z.eqb k' k).
Qed.

Lemma od_set_map (f : V -> W) d k (v : V) :
  map (fun kv => (fst kv, f (snd kv))) (od_set d k v)
  = od_set (map (fun kv => (fst kv, f (snd kv))) d) k (f v).
Proof.
  induction d as [| [k' w] d IH]; [reflexivity |].
  cbn. destruct (Z.eqb k' k); cbn; [reflexivity | now rewrite IH].
Qed.

Lemma od_get_set_ne d k k' (v : V) :
  k <> k' -> od_get (od_set d k v) k' = od_get d k'.
Proof.
  intros Hne. induction d as [| [k0 w] d IH]; cbn.
  - destruct (Z.eqb_spec k k'); congruence.
  - destruct (Z.eqb_spec k0 k) as [-> | Hk0]; cbn.
    + destruct (Z.eqb_spec k k'); congruence.
    + destruct (Z.eqb_spec k0 k'); [reflexivity | exact IH].
Qed.

Lemma od_get_None d k : od_get d k = None <-> k ∉ map fst d.
Proof.
  induction d as [| [k' v] d IH]; cbn.
  - split; [intros _; apply not_elem_of_nil | reflexivity].
  - rewrite not_elem_of_cons.
    destruct (Z.eqb_spec k' k) as [-> | Hne].
    + split; [discriminate | intros [Hk _]; congruence].
    + rewrite IH. split; [intros Hd; split; [congruence | exact Hd] | intros [_ Hd]; exact Hd].
Qed.

Lemma od_set_absent d k (v : V) :
  od_get d k = None -> od_set d k v = d ++ [(k, v)].
Proof.
  induction d as [| [k' w] d IH]; cbn; [reflexivity |].
  destruct (Z.eqb k' k); [discriminate |].
  intros Hget. now rewrite IH.
Qed.

Lemma od_set_keys_present d k (v w : V) :
  od_get d k = Some w -> map fst (od_set d k v) = map fst d.
Proof.
  induction d as [| [k' u] d IH]; cbn; [discriminate |].
  destruct (Z.eqb_spec k' k) as [-> | Hne]; cbn; [reflexivity |].
  intros Hget. now rewrite IH.
Qed.

Lemma elem_of_od_set d k (v : V) (kv : StatusCode * V) :
  kv ∈ od_set d k v -> kv ∈ d \/ kv = (k, v).
Proof.
  induction d as [| [k' u] d IH]; cbn.
  - rewrite list_elem_of_singleton. auto.
  - destruct (Z.eqb_spec k' k) as [-> | Hne]; rewrite !elem_of_cons.
    + intros [-> | Hin]; auto.
    + intros [-> | Hin]; [auto |]. destruct (IH Hin); auto.
Qed.

End OrderedDictFacts.

(** ** The combination of error values *)

(** The kept messages of [buff.get(key, None)] in [__or__]: nothing for a
    missing key, and nothing for a value that is false. *)
Lemma messages_app (h ext : Heap) (m : Msg) :
  (forall l, m = MList l -> (l < List.length h)%nat) ->
  messages (h ++ ext) m = messages h m.
Proof.
  destruct m as [s | l]; [reflexivity |].
  intros Hl. cbn. apply deref_app_l. now apply Hl.
Qed.

Lemma view_app (h ext : Heap) (d : OrderedDict) :
  od_wf h d -> view (h ++ ext) (mkResponseError d) = view h (mkResponseError d).
Proof.
  intros Hwf. unfold view; cbn [__dict].
  apply map_ext_in. intros [k m] Hin. cbn. f_equal.
  apply messages_app. intros l ->.
  apply (Hwf k). now apply list_elem_of_In.
Qed.

Lemma od_wf_app (h ext : Heap) (d : OrderedDict) :
  od_wf h d -> od_wf (h ++ ext) d.
Proof.
  intros Hwf k l Hin. rewrite length_app. specialize (Hwf k l Hin). lia.
Qed.

Lemma od_wf_set (h : Heap) (d : OrderedDict) (k : StatusCode) (m : Msg) :
  od_wf h d -> (forall l, m = MList l -> (l < List.length h)%nat) ->
  od_wf h (od_set d k m).
Proof.
  intros Hwf Hm k' l Hin.
  destruct (elem_of_od_set _ _ _ _ Hin) as [Hold | Hnew].
  - now apply (Hwf k').
  - apply Hm. congruence.
Qed.

(** One turn of the loop on a string message of [b], when the value of
    [buff] under the key, if any, is a string: a new list holds the kept
    message of [buff] and then the message of [b]; no older object of the
    store is written. *)
Lemma or_step_string (buff : OrderedDict) (h : Heap) (k : StatusCode) (s : string) :
  (forall m, od_get buff k = Some m -> exists t, m = MStr t) ->
  or_step (buff, h) (k, MStr s)
  = (od_set buff k (MList (List.length h)),
     h ++ [match od_get buff k with
           | Some (MStr t) => if String.eqb t "" then [] else [t]
           | _ => []
           end ++ [s]; [s]]).
Proof.
  intros Hstr. unfold or_step.
  assert (Hext : forall init : list string,
             extend (List.length h)
               (deref ((h ++ [init]) ++ [[s]]) (List.length (h ++ [init])))
               ((h ++ [init]) ++ [[s]])
             = h ++ [init ++ [s]; [s]]).
  { intros init. unfold extend.
    replace (deref ((h ++ [init]) ++ [[s]]) (List.length (h ++ [init]))) with [s]
      by (symmetry; apply (deref_alloc (h ++ [init]) [s])).
    rewrite <- app_assoc. cbn [app].
    rewrite alter_app_r_alt by lia.
    now rewrite Nat.sub_diag. }
  destruct (od_get buff k) as [m |] eqn:Hget.
  - destruct (Hstr m eq_refl) as [t ->]. cbn [truthy].
    destruct (String.eqb t ""); cbn [negb _listify alloc]; now rewrite Hext.
  - cbn [_listify alloc]. now rewrite Hext.
Qed.

(** *** The specification of the combination, one code of [b] at a time *)

Lemma filter_absent_ext (v w : list (StatusCode * list string))
    (b : list (StatusCode * list string)) :
  (forall kv, kv ∈ b -> od_get v (fst kv) = None <-> od_get w (fst kv) = None) ->
  filter (fun kv => od_get v (fst kv) = None) b
  = filter (fun kv => od_get w (fst kv) = None) b.
Proof.
  induction b as [| kv b IH]; intros Hiff; [reflexivity |].
  assert (Hb : forall x, x ∈ b -> od_get v (fst x) = None <-> od_get w (fst x) = None)
    by (intros x Hx; apply Hiff; now right).
  destruct (decide (od_get v (fst kv) = None)) as [Hv | Hv].
  - rewrite !filter_cons_True; [now rewrite IH | | assumption].
    apply Hiff; [left | assumption].
  - rewrite !filter_cons_False; [now apply IH | | assumption].
    intros Hw. apply Hv. apply Hiff; [left | assumption].
Qed.

Lemma map_merged_ext (b b' : list (StatusCode * list string))
    (v : list (StatusCode * list string)) :
  (forall k, k ∈ map fst v -> od_get b k = od_get b' k) ->
  map (fun kv => (fst kv, snd kv ++ default [] (od_get b (fst kv)))) v
  = map (fun kv => (fst kv, snd kv ++ default [] (od_get b' (fst kv)))) v.
Proof.
  intros Hsame. apply map_ext_in. intros [k ms] Hin. cbn.
  rewrite Hsame; [reflexivity |].
  apply list_elem_of_In in Hin.
  apply list_elem_of_fmap. now exists (k, ms).
Qed.

Lemma od_get_cons_ne {V : Type} (d : list (StatusCode * V)) (k k' : StatusCode) (v : V) :
  k <> k' -> od_get ((k, v) :: d) k' = od_get d k'.
Proof. intros Hne. cbn. now destruct (Z.eqb_spec k k'). Qed.

Lemma od_get_cons_eq {V : Type} (d : list (StatusCode * V)) (k : StatusCode) (v : V) :
  od_get ((k, v) :: d) k = Some v.
Proof. cbn. now rewrite Z.eqb_refl. Qed.

Lemma od_get_Some_elem {V : Type} (d : list (StatusCode * V)) (k : StatusCode) (v : V) :
  od_get d k = Some v -> k ∈ map fst d.
Proof.
  intros Hget. destruct (decide (k ∈ map fst d)) as [Hin | Hout]; [exact Hin |].
  apply od_get_None in Hout. congruence.
Qed.

Lemma od_set_cons_eq {V : Type} (d : list (StatusCode * V)) (k : StatusCode) (v w : V) :
  od_set ((k, w) :: d) k v = (k, v) :: d.
Proof. cbn. now rewrite Z.eqb_refl. Qed.

Lemma od_set_cons_ne {V : Type} (d : list (StatusCode * V)) (k k' : StatusCode) (v w : V) :
  k' <> k -> od_set ((k', w) :: d) k v = (k', w) :: od_set d k v.
Proof. intros Hne. cbn. now destruct (Z.eqb_spec k' k). Qed.

Lemma map_merged_set (v b : list (StatusCode * list string))
    (k : StatusCode) (old ms : list string) :
  NoDup (map fst v) -> od_get v k = Some old -> k ∉ map fst b ->
  map (fun kv => (fst kv, snd kv ++ default [] (od_get b (fst kv))))
    (od_set v k (old ++ ms))
  = map (fun kv => (fst kv, snd kv ++ default [] (od_get ((k, ms) :: b) (fst kv)))) v.
Proof.
  intros Hnodup Hget Hk.
  assert (Hbk : od_get b k = None) by now apply od_get_None.
  induction v as [| [k' w] v IH]; [discriminate |].
  change (map fst ((k', w) :: v)) with (k' :: map fst v) in Hnodup.
  apply list.NoDup_cons in Hnodup as [Hk' Hnodup].
  destruct (decide (k' = k)) as [-> | Hne].
  - rewrite od_get_cons_eq in Hget. injection Hget as ->.
    rewrite od_set_cons_eq. rewrite !map_cons. cbn [fst snd].
    rewrite Hbk, od_get_cons_eq. cbn [default from_option id].
    rewrite app_nil_r. f_equal.
    apply map_merged_ext. intros k' Hin.
    rewrite od_get_cons_ne; [reflexivity |]. intros ->. contradiction.
  - rewrite od_get_cons_ne in Hget by exact Hne.
    rewrite od_set_cons_ne by exact Hne. rewrite !map_cons. cbn [fst snd].
    rewrite od_get_cons_ne by congruence.
    f_equal. now apply IH.
Qed.

(** Taking one more code of [b] into account is one update of the
    mapping. *)
Lemma combine_spec_cons (v b : list (StatusCode * list string))
    (k : StatusCode) (ms : list string) :
  NoDup (map fst v) -> k ∉ map fst b ->
  combine_spec (od_set v k (default [] (od_get v k) ++ ms)) b
  = combine_spec v ((k, ms) :: b).
Proof.
  intros Hnodup Hk. unfold combine_spec.
  assert (Hbk : od_get b k = None) by now apply od_get_None.
  destruct (od_get v k) as [old |] eqn:Hget; cbn [default from_option id].
  - f_equal.
    + now apply map_merged_set.
    + rewrite filter_cons_False by (cbn [fst]; congruence).
      apply filter_absent_ext. intros [k' w] Hin. cbn [fst].
      destruct (decide (k = k')) as [<- | Hne].
      * exfalso. apply Hk. apply list_elem_of_fmap. now exists (k, w).
      * now rewrite od_get_set_ne.
  - rewrite (od_set_absent _ _ _ Hget). cbn [app].
    rewrite map_app. cbn [map fst snd]. rewrite Hbk. cbn [default from_option id].
    rewrite app_nil_r, <- app_assoc. cbn [app].
    rewrite filter_cons_True by exact Hget.
    f_equal.
    + apply map_merged_ext. intros k' Hin.
      rewrite od_get_cons_ne; [reflexivity |]. intros ->.
      apply od_get_None in Hget. contradiction.
    + f_equal. apply filter_absent_ext. intros [k' w] Hin. cbn [fst].
      assert (Hne : k <> k').
      { intros ->. apply Hk. apply list_elem_of_fmap. now exists (k', w). }
      rewrite !od_get_None, map_app, not_elem_of_app. cbn [map fst].
      rewrite list_elem_of_singleton.
      split; [tauto | intros Hv; split; [exact Hv | congruence]].
Qed.

Lemma combine_spec_nil (v : list (StatusCode * list string)) :
  combine_spec v [] = v.
Proof.
  unfold combine_spec. cbn. rewrite app_nil_r.
  induction v as [| [k ms] v IH]; [reflexivity |].
  cbn. now rewrite app_nil_r, IH.
Qed.

Lemma od_set_NoDup {V : Type} (d : list (StatusCode * V)) (k : StatusCode) (v : V) :
  NoDup (map fst d) -> NoDup (map fst (od_set d k v)).
Proof.
  intros Hnodup. destruct (od_get d k) as [w |] eqn:Hget.
  - now rewrite (od_set_keys_present _ _ _ _ Hget).
  - rewrite (od_set_absent _ _ _ Hget), map_app. cbn.
    apply list.NoDup_app. split; [exact Hnodup |]. split.
    + intros k' Hin Hk'. apply list_elem_of_singleton in Hk' as ->.
      apply od_get_None in Hget. contradiction.
    + apply NoDup_singleton.
Qed.

(** *** The code against the specification, on string messages *)

Lemma view_keys (h : Heap) (d : OrderedDict) :
  map fst (view h (mkResponseError d)) = map fst d.
Proof. unfold view. cbn [__dict]. rewrite map_map. reflexivity. Qed.

Lemma as_lists_keys (b : list (StatusCode * string)) :
  map fst (as_lists b) = map fst b.
Proof. unfold as_lists. rewrite map_map. reflexivity. Qed.

(** The mapping after one turn of the loop is the mapping before it with
    one update. *)
Lemma view_or_step_string (buff : OrderedDict) (h : Heap) (k : StatusCode) (s : string) :
  od_wf h buff ->
  (forall m, od_get buff k = Some m -> exists t, m = MStr t /\ t <> "") ->
  let r := or_step (buff, h) (k, MStr s) in
  view (snd r) (mkResponseError (fst r))
  = od_set (view h (mkResponseError buff)) k
      (default [] (od_get (view h (mkResponseError buff)) k) ++ [s])
  /\ od_wf (snd r) (fst r)
  /\ (exists ext, snd r = h ++ ext)
  /\ fst r = od_set buff k (MList (List.length h)).
Proof.
  intros Hwf Hstr r. subst r.
  rewrite or_step_string
    by (intros m Hm; destruct (Hstr m Hm) as (t & -> & _); eauto).
  cbn [fst snd].
  set (init := match od_get buff k with
               | Some (MStr t) => if String.eqb t "" then [] else [t]
               | _ => []
               end).
  assert (Hinit : init = default [] (od_get (view h (mkResponseError buff)) k)).
  { unfold view; cbn [__dict]. rewrite od_get_map. subst init.
    destruct (od_get buff k) as [m |]; [| reflexivity].
    destruct (Hstr m eq_refl) as (t & -> & Ht). cbn.
    destruct (String.eqb_spec t ""); congruence. }
  repeat apply conj.
  - unfold view at 1. cbn [__dict].
    rewrite (od_set_map (messages (h ++ [init ++ [s]; [s]]))).
    change (map (fun kv => (fst kv, messages (h ++ [init ++ [s]; [s]]) (snd kv))) buff)
      with (view (h ++ [init ++ [s]; [s]]) (mkResponseError buff)).
    rewrite view_app by exact Hwf.
    rewrite <- Hinit. f_equal.
    cbn [messages]. unfold deref. now rewrite list_lookup_middle.
  - apply od_wf_set; [now apply od_wf_app |].
    intros l [= <-]. rewrite length_app. cbn. lia.
  - eauto.
  - reflexivity.
Qed.

Lemma or_fold_strings (b : list (StatusCode * string)) :
  forall (buff : OrderedDict) (h : Heap),
    NoDup (map fst b) -> NoDup (map fst buff) -> od_wf h buff ->
    (forall k m, k ∈ map fst b -> od_get buff k = Some m ->
                 exists t, m = MStr t /\ t <> "") ->
    let r := fold_left or_step (__dict (of_strings b)) (buff, h) in
    view (snd r) (mkResponseError (fst r))
    = combine_spec (view h (mkResponseError buff)) (as_lists b)
    /\ exists ext, snd r = h ++ ext.
Proof.
  induction b as [| [k s] b IH]; intros buff h Hb Hbuff Hwf Hstr.
  - cbn [of_strings __dict map fold_left fst snd].
    change (as_lists []) with (@nil (StatusCode * list string)).
    rewrite combine_spec_nil. split; [reflexivity |].
    exists []. now rewrite app_nil_r.
  - change (map fst ((k, s) :: b)) with (k :: map fst b) in Hb, Hstr.
    apply list.NoDup_cons in Hb as [Hk Hb].
    cbn [of_strings __dict map fold_left fst snd].
    destruct (view_or_step_string buff h k s Hwf) as (Hview & Hwf1 & [ext1 Hext1] & Hbuff1).
    { intros m Hm. apply (Hstr k); [now left | exact Hm]. }
    destruct (or_step (buff, h) (k, MStr s)) as [buff1 h1] eqn:Hstep.
    cbn [fst snd] in Hview, Hwf1, Hext1, Hbuff1.
    destruct (IH buff1 h1) as (HviewIH & [ext Hext]); try assumption.
    + subst buff1. now apply od_set_NoDup.
    + intros k' m Hk' Hget. apply (Hstr k'); [now right |].
      subst buff1. rewrite od_get_set_ne in Hget; [exact Hget |].
      intros ->. contradiction.
    + change (__dict (of_strings b)) with (map (fun kv => (fst kv, MStr (snd kv))) b)
        in HviewIH, Hext.
      split.
      * rewrite HviewIH, Hview.
        change (as_lists ((k, s) :: b)) with ((k, [s]) :: as_lists b).
        apply combine_spec_cons.
        -- now rewrite view_keys.
        -- now rewrite as_lists_keys.
      * exists (ext1 ++ ext). rewrite Hext, Hext1. now rewrite app_assoc.
Qed.

(** The merge of the specification, for operands whose messages are all
    strings and none of them empty in the left operand: the result reads
    as the combination of the two mappings, and no object that was in the
    store before the combination is written. *)
Theorem or_strings_merge (a b : list (StatusCode * string)) (h : Heap) :
  NoDup (map fst a) -> NoDup (map fst b) ->
  (forall k, (k, "") ∉ a) ->
  let r := __or__ (of_strings a) (of_strings b) h in
  view (snd r) (fst r) = combine_spec (as_lists a) (as_lists b)
  /\ exists ext, snd r = h ++ ext.
Proof.
  intros Ha Hb Hne r. subst r. unfold __or__.
  destruct (or_fold_strings b (__dict (of_strings a)) h) as (Hview & Hext).
  - exact Hb.
  - unfold of_strings. cbn [__dict]. now rewrite map_map.
  - intros k l Hin. unfold of_strings in Hin. cbn [__dict] in Hin.
    apply list_elem_of_fmap in Hin as ([k' s] & [=] & _).
  - intros k m _ Hget. unfold of_strings in Hget. cbn [__dict] in Hget.
    rewrite (od_get_map MStr) in Hget.
    destruct (od_get a k) as [t |] eqn:Hat; [| discriminate].
    injection Hget as <-. exists t. split; [reflexivity |].
    intros ->. apply (Hne k). clear -Hat.
    induction a as [| [k' u] a IH]; [discriminate |].
    cbn in Hat. destruct (Z.eqb_spec k' k) as [-> | Hk].
    + injection Hat as ->. now left.
    + right. now apply IH.
  - destruct (fold_left or_step (__dict (of_strings b)) (__dict (of_strings a), h))
      as [buff h'].
    cbn [fst snd] in *. split; [| exact Hext].
    rewrite Hview. f_equal.
    unfold view, of_strings, as_lists. cbn [__dict]. now rewrite map_map.
Qed.

(** ** The descriptor *)

Lemma stringify_spec (h : Heap) (m : Msg) (delimiter : string) :
  (forall l, m = MList l -> (l < List.length h)%nat) ->
  fst (_stringify m delimiter h) = join delimiter (messages h m)
  /\ exists ext, snd (_stringify m delimiter h) = h ++ ext.
Proof.
  intros Hm. destruct (listify_spec h m Hm) as (ext & Hext & Hderef).
  unfold _stringify. destruct (_listify m h) as [l h1]. cbn [fst snd] in *.
  rewrite Hderef. eauto.
Qed.

Lemma od_wf_cons (h : Heap) (k : StatusCode) (m : Msg) (d : OrderedDict) :
  od_wf h ((k, m) :: d) ->
  (forall l, m = MList l -> (l < List.length h)%nat) /\ od_wf h d.
Proof.
  intros Hwf. split.
  - intros l ->. apply (Hwf k). now left.
  - intros k' l Hin. apply (Hwf k'). now right.
Qed.

Lemma descriptor_step_eq (acc : Descriptor) (h : Heap) (k : StatusCode) (m : Msg) :
  descriptor_step (acc, h) (k, m)
  = (acc ++ [(k, [(KLiteral "description", fst (_stringify m descriptor_delimiter h))])],
     snd (_stringify m descriptor_delimiter h)).
Proof.
  unfold descriptor_step. now destruct (_stringify m descriptor_delimiter h).
Qed.

Lemma descriptor_fold (d : OrderedDict) :
  forall (acc : Descriptor) (h : Heap),
    od_wf h d ->
    fst (fold_left descriptor_step d (acc, h))
    = acc ++ descriptor_spec (KLiteral "description") (view h (mkResponseError d))
    /\ exists ext, snd (fold_left descriptor_step d (acc, h)) = h ++ ext.
Proof.
  induction d as [| [k m] d IH]; intros acc h Hwf.
  - cbn. rewrite app_nil_r. split; [reflexivity |].
    exists []. now rewrite app_nil_r.
  - apply od_wf_cons in Hwf as [Hm Hwf].
    cbn [fold_left]. rewrite descriptor_step_eq.
    destruct (stringify_spec h m descriptor_delimiter Hm) as (Hs & ext1 & Hext1).
    rewrite Hs, Hext1.
    destruct (IH (acc ++ [(k, [(KLiteral "description",
                                 join descriptor_delimiter (messages h m))])])
                (h ++ ext1) (od_wf_app _ _ _ Hwf)) as (Hfst & ext & Hsnd).
    split.
    + etransitivity; [exact Hfst |].
      rewrite view_app by exact Hwf. now rewrite <- app_assoc.
    + exists (ext1 ++ ext). etransitivity; [exact Hsnd |]. now rewrite app_assoc.
Qed.

(** The descriptor of any error value whose lists are in the store: every
    status code, in order, with its messages joined by [" |OR| "], under
    the key [Literal["description"]]; no object of the store is written. *)
Theorem fastapi_descriptor_shape (e : ResponseError) (h : Heap) :
  od_wf h (__dict e) ->
  fst (fastapi_descriptor e h)
  = descriptor_spec (KLiteral "description") (view h e)
  /\ exists ext, snd (fastapi_descriptor e h) = h ++ ext.
Proof.
  intros Hwf. destruct e as [d]. cbn [__dict] in Hwf.
  unfold fastapi_descriptor. cbn [__dict].
  exact (descriptor_fold d [] h Hwf).
Qed.

(** The shape at [{400: ["A", "B"], 404: "B"}]. *)
Lemma fastapi_descriptor_shape_witness :
  fst (fastapi_descriptor error_combined store_AB)
  = descriptor_spec (KLiteral "description") [(400, ["A"; "B"]); (404, ["B"])].
Proof.
  apply (fastapi_descriptor_shape error_combined store_AB).
  intros k l Hin. unfold error_combined in Hin. cbn [__dict] in Hin.
  apply elem_of_cons in Hin as [Heq | Hin].
  - injection Heq as _ ->. cbn. lia.
  - apply elem_of_cons in Hin as [Heq | Hin]; [discriminate |].
    now apply elem_of_nil in Hin.
Defined.

(** The merge at [{400: "A", 404: "N"} | {404: "B", 500: "C"}]. *)
Lemma or_strings_merge_witness :
  view (snd (__or__ (of_strings [(400, "A"); (404, "N")])
                    (of_strings [(404, "B"); (500, "C")]) []))
       (fst (__or__ (of_strings [(400, "A"); (404, "N")])
                    (of_strings [(404, "B"); (500, "C")]) []))
  = [(400, ["A"]); (404, ["N"; "B"]); (500, ["C"])].
Proof.
  apply (or_strings_merge [(400, "A"); (404, "N")] [(404, "B"); (500, "C")] []).
  - repeat constructor; rewrite ?not_elem_of_cons; intuition (try discriminate);
      eapply elem_of_nil; eassumption.
  - repeat constructor; rewrite ?not_elem_of_cons; intuition (try discriminate);
      eapply elem_of_nil; eassumption.
  - intros k. rewrite !not_elem_of_cons.
    repeat split; try discriminate. apply not_elem_of_nil.
Defined.

(** ** Resolution of the details *)

Section DetailsFacts.
Context `{DictStr}.

Lemma retrieve_single (k : StatusCode) (m : Msg) :
  __retrieve_one_from_some (mkResponseError [(k, m)]) None = Ret (k, m).
Proof. reflexivity. Qed.

Lemma retrieve_ambiguous (e1 e2 : StatusCode * Msg) (rest : OrderedDict) :
  __retrieve_one_from_some (mkResponseError (e1 :: e2 :: rest)) None
  = Raise (ValueError
      "In case of multiple response status codes, the status code must be specified.").
Proof. reflexivity. Qed.

Lemma retrieve_absent (d : OrderedDict) (sc : StatusCode) :
  d <> [] -> od_get d sc = None ->
  __retrieve_one_from_some (mkResponseError d) (Some sc) = Raise (KeyError sc).
Proof.
  intros Hne Habs. destruct d as [| e d]; [congruence |].
  unfold __retrieve_one_from_some. cbn [__dict]. now rewrite Habs.
Qed.

Lemma retrieve_present (d : OrderedDict) (sc : StatusCode) (m : Msg) :
  od_get d sc = Some m ->
  __retrieve_one_from_some (mkResponseError d) (Some sc) = Ret (sc, m).
Proof.
  intros Hget. destruct d as [| e d]; [discriminate |].
  unfold __retrieve_one_from_some. cbn [__dict]. now rewrite Hget.
Qed.

Lemma retrieve_empty (status_code : option StatusCode) :
  __retrieve_one_from_some (mkResponseError []) status_code
  = Ret (500, MStr "Generic Response Error").
Proof. now destruct status_code. Qed.

(** The resolution rules as the code has them: one entry with a string
    message and no status code gives that entry; several entries and no status code give the
    ambiguity error; a status code absent from a mapping that is not empty
    gives the not-found error; the empty mapping gives the generic pair,
    with or without a status code; extra information that is not empty is
    rendered after [" :=> "] at the end of the message, and absent or empty
    extra information adds nothing. *)
Theorem get_error_details_rules (extra : ExtraInformation) :
  (forall k s,
      get_error_details (mkResponseError [(k, MStr s)]) extra None
      = Ret (k, s +:+ extra_suffix extra))
  /\ (forall e1 e2 rest,
      get_error_details (mkResponseError (e1 :: e2 :: rest)) extra None
      = Raise (ValueError
          "In case of multiple response status codes, the status code must be specified."))
  /\ (forall d sc, d <> [] -> od_get d sc = None ->
      get_error_details (mkResponseError d) extra (Some sc) = Raise (KeyError sc))
  /\ (forall status_code,
      get_error_details (mkResponseError []) extra status_code
      = Ret (500, "Generic Response Error" +:+ extra_suffix extra))
  /\ (forall kv rest, extra_suffix (Some (kv :: rest)) = " :=> " +:+ dict_str (kv :: rest))
  /\ extra_suffix None = "" /\ extra_suffix (Some []) = "".
Proof.
  repeat split.
  - intros d sc Hne Habs. unfold get_error_details.
    now rewrite retrieve_absent.
  - intros status_code. unfold get_error_details.
    now rewrite retrieve_empty.
Qed.

(** A message held as a list cannot be resolved: [msg + "..."] fails. *)
Lemma get_error_details_list (k : StatusCode) (l : nat) (extra : ExtraInformation) :
  get_error_details (mkResponseError [(k, MList l)]) extra None = Raise TypeError.
Proof. reflexivity. Qed.

End DetailsFacts.

(** C8: on the empty mapping a status code that is given, and absent, is
    answered with the generic pair and not with the not-found error: the
    arm for a given status code is guarded by [n >= 1], so the call falls
    through to the arm meant for [None].  The docstring promises [KeyError]
    when the given status code cannot be found. *)
Lemma details_empty_mapping_with_code :
  od_get (V := Msg) [] 404 = None
  /\ @get_error_details test_dict_str (mkResponseError []) None (Some 404)
     = Ret (500, "Generic Response Error")
  /\ @get_error_details test_dict_str (mkResponseError []) None (Some 404)
     <> Raise (KeyError 404).
Proof. repeat split; discriminate. Qed.

(** The rules at [{404: "B"}], asked for 400, with a URL as context. *)
Lemma get_error_details_rules_witness :
  @get_error_details test_dict_str error_404_B (Some [("url", "u")]) (Some 400)
  = Raise (KeyError 400).
Proof.
  pose proof (@get_error_details_rules test_dict_str (Some [("url", "u")]))
    as (_ & _ & Habsent & _).
  apply Habsent; [discriminate | reflexivity].
Defined.

(** ** More of the error model *)

Section ErrorModelFacts.
Context `{DictStr}.

(** Whatever [get_error_details] returns is in the mapping: the generic
    pair for the empty mapping, and otherwise a status code of the mapping
    with its string message and the suffix; the code is the one asked for,
    or the only one there is. *)
Theorem get_error_details_sound (e : ResponseError) (extra : ExtraInformation)
    (status_code : option StatusCode) (c : StatusCode) (m : string) :
  get_error_details e extra status_code = Ret (c, m) ->
  (__dict e = [] /\ c = 500 /\ m = "Generic Response Error" +:+ extra_suffix extra)
  \/ (exists s, od_get (__dict e) c = Some (MStr s)
                /\ m = s +:+ extra_suffix extra
                /\ (status_code = Some c
                    \/ (status_code = None /\ exists kv, __dict e = [kv]))).
Proof.
  destruct e as [d]. unfold get_error_details, __retrieve_one_from_some. cbn [__dict].
  destruct status_code as [sc |].
  - destruct d as [| kv d]; [intros [= <- <-]; left; auto |].
    destruct (od_get (kv :: d) sc) as [[s | l] |] eqn:Hget; try discriminate.
    intros [= <- <-]. right. exists s. auto.
  - destruct d as [| [k [s | l]] [| kv2 d]]; try discriminate.
    + intros [= <- <-]. left. auto.
    + intros [= <- <-]. right. exists s. cbn. rewrite Z.eqb_refl. eauto 10.
Qed.

(** [get_error_details] raises a [ValueError], a [KeyError] or a
    [TypeError], and nothing else. *)
Lemma get_error_details_raises (e : ResponseError) (extra : ExtraInformation)
    (status_code : option StatusCode) (x : Exc) :
  get_error_details e extra status_code = Raise x ->
  (exists msg, x = ValueError msg) \/ (exists k, x = KeyError k) \/ x = TypeError.
Proof.
  destruct e as [d]. unfold get_error_details, __retrieve_one_from_some. cbn [__dict].
  destruct status_code as [sc |].
  - destruct d as [| kv d]; [discriminate |].
    destruct (od_get (kv :: d) sc) as [[s | l] |]; intros [= <-]; eauto.
  - destruct d as [| [k [s | l]] [| kv2 d]]; intros [= <-]; eauto.
Qed.

(** The two logging calls.  [sys_exit_log] never returns: when the details
    resolve it logs one record at error level, carrying the resolved status
    code, and exits with exactly the code it was given; [log_as_warning]
    never ends the process: when the details resolve it logs one record at
    warning level and returns; and when the details do not resolve, both
    raise what the resolution raises and log nothing. *)
Theorem logging_outcomes (e : ResponseError) (code : Z) (extra : ExtraInformation)
    (status_code : option StatusCode) (lg : Logger) :
  fst (sys_exit_log e code extra status_code lg) <> Ret tt
  /\ (forall c, fst (log_as_warning e extra status_code lg) <> Raise (SystemExit c))
  /\ (forall k m, get_error_details e extra status_code = Ret (k, m) ->
        sys_exit_log e code extra status_code lg
        = (Raise (SystemExit code), lg ++ [mkLog ERROR k])
        /\ log_as_warning e extra status_code lg = (Ret tt, lg ++ [mkLog WARNING k]))
  /\ (forall x, get_error_details e extra status_code = Raise x ->
        sys_exit_log e code extra status_code lg = (Raise x, lg)
        /\ log_as_warning e extra status_code lg = (Raise x, lg)).
Proof.
  unfold sys_exit_log, log_as_warning.
  destruct (get_error_details e extra status_code) as [[k m] | x] eqn:Hdetails;
    cbn [fst]; repeat apply conj.
  - discriminate.
  - discriminate.
  - intros k' m' [= <- <-]. split; reflexivity.
  - discriminate.
  - discriminate.
  - intros c [= ->].
    destruct (get_error_details_raises _ _ _ _ Hdetails)
      as [[msg Hx] | [[k Hx] | Hx]]; discriminate.
  - discriminate.
  - intros x' [= <-]. split; reflexivity.
Qed.

End ErrorModelFacts.

(** *** The codes of a combination *)

(** The dictionary after one turn of the loop of [__or__]: the key holds a
    list. *)
Lemma or_step_dict (buff : OrderedDict) (h : Heap) (k : StatusCode) (m : Msg) :
  exists l, fst (or_step (buff, h) (k, m)) = od_set buff k (MList l).
Proof.
  unfold or_step.
  destruct (match od_get buff k with
            | Some m0 => if truthy h (od_get buff k) then _listify m0 h else alloc [] h
            | None => alloc [] h
            end) as [l h1].
  destruct (_listify m h1) as [lm h2]. cbn. eauto.
Qed.

Lemma od_get_set_eq {V : Type} (d : list (StatusCode * V)) (k : StatusCode) (v : V) :
  od_get (od_set d k v) k = Some v.
Proof.
  induction d as [| [k' w] d IH]; cbn.
  - now rewrite Z.eqb_refl.
  - destruct (Z.eqb_spec k' k) as [-> | Hne]; cbn.
    + now rewrite Z.eqb_refl.
    + destruct (Z.eqb_spec k' k); [congruence | exact IH].
Qed.

Lemma or_fold_codes (b : OrderedDict) :
  forall (buff : OrderedDict) (h : Heap),
    NoDup (map fst b) ->
    let r := fst (fold_left or_step b (buff, h)) in
    map fst r = map fst buff ++ filter (fun k => k ∉ map fst buff) (map fst b)
    /\ (forall k, k ∈ map fst b -> exists l, od_get r k = Some (MList l))
    /\ (forall k, k ∉ map fst b -> od_get r k = od_get buff k).
Proof.
  induction b as [| [k m] b IH]; intros buff h Hb.
  - cbn. rewrite app_nil_r. repeat apply conj.
    + reflexivity.
    + intros k Hk. now apply elem_of_nil in Hk.
    + reflexivity.
  - change (map fst ((k, m) :: b)) with (k :: map fst b) in *.
    apply list.NoDup_cons in Hb as [Hk Hb].
    cbn [fold_left].
    destruct (or_step_dict buff h k m) as [l Hstep].
    destruct (or_step (buff, h) (k, m)) as [buff1 h1]. cbn [fst] in Hstep. subst buff1.
    destruct (IH (od_set buff k (MList l)) h1 Hb) as (Hkeys & Hlists & Hother).
    repeat apply conj.
    + rewrite Hkeys. destruct (od_get buff k) as [w |] eqn:Hget.
      * rewrite (od_set_keys_present _ _ _ _ Hget).
        rewrite (filter_cons_False _ k); [reflexivity |].
        intros Hout. apply od_get_None in Hout. congruence.
      * rewrite (od_set_absent _ _ _ Hget), map_app, <- app_assoc. cbn [map fst app].
        rewrite (filter_cons_True _ k) by now apply od_get_None.
        f_equal. f_equal.
        clear -Hk. induction (map fst b) as [| k0 ks IHks]; [reflexivity |].
        apply not_elem_of_cons in Hk as [Hne Hk].
        destruct (decide (k0 ∈ map fst buff)) as [Hin0 | Hout0].
        -- rewrite !filter_cons_False; [now apply IHks | tauto |].
           rewrite not_elem_of_app. tauto.
        -- rewrite !filter_cons_True; [f_equal; now apply IHks | exact Hout0 |].
           rewrite not_elem_of_app, not_elem_of_cons. split; [exact Hout0 |].
           split; [congruence | apply not_elem_of_nil].
    + intros k' Hk'. apply elem_of_cons in Hk' as [-> | Hk'].
      * exists l. rewrite Hother by exact Hk. apply od_get_set_eq.
      * now apply Hlists.
    + intros k' Hk'. apply not_elem_of_cons in Hk' as [Hne Hk'].
      rewrite Hother by exact Hk'. now apply od_get_set_ne.
Qed.

(** The status codes of [a | b], for all operands: the codes of [a] in
    their order, then the codes only [b] has, in the order of [b]; a code
    of [b] holds a list object in the result, and a code that [b] does not
    have keeps the value it has in [a]. *)
Theorem or_codes (a b : ResponseError) (h : Heap) :
  NoDup (map fst (__dict b)) ->
  let r := fst (__or__ a b h) in
  map fst (__dict r)
  = map fst (__dict a) ++ filter (fun k => k ∉ map fst (__dict a)) (map fst (__dict b))
  /\ (forall k, k ∈ map fst (__dict b) -> exists l, od_get (__dict r) k = Some (MList l))
  /\ (forall k, k ∉ map fst (__dict b) -> od_get (__dict r) k = od_get (__dict a) k).
Proof.
  intros Hb r. subst r. unfold __or__.
  pose proof (or_fold_codes (__dict b) (__dict a) h Hb) as Hfold.
  destruct (fold_left or_step (__dict b) (__dict a, h)) as [buff h'].
  exact Hfold.
Qed.

(** The details of a code of the right operand cannot be asked of a
    combination: the code holds a list, and [msg + "..."] fails on it. *)
Theorem details_after_or `{DictStr} (a b : ResponseError) (h : Heap)
    (extra : ExtraInformation) (k : StatusCode) :
  NoDup (map fst (__dict b)) -> k ∈ map fst (__dict b) ->
  get_error_details (fst (__or__ a b h)) extra (Some k) = Raise TypeError.
Proof.
  intros Hb Hk. unfold __or__.
  pose proof (or_fold_codes (__dict b) (__dict a) h Hb) as (_ & Hlists & _).
  destruct (fold_left or_step (__dict b) (__dict a, h)) as [buff h'].
  cbn [fst] in *. destruct (Hlists k Hk) as [l Hget].
  unfold get_error_details, __retrieve_one_from_some. cbn [__dict].
  destruct buff as [| kv buff]; [discriminate |].
  now rewrite Hget.
Qed.

(** The codes of [{400: "A", 404: "N"} | {404: "B", 500: "C"}]. *)
Lemma or_codes_witness :
  map fst (__dict (fst (__or__ (of_strings [(400, "A"); (404, "N")])
                               (of_strings [(404, "B"); (500, "C")]) [])))
  = [400; 404; 500].
Proof.
  apply (or_codes (of_strings [(400, "A"); (404, "N")])
                  (of_strings [(404, "B"); (500, "C")]) []).
  cbn. repeat constructor; rewrite ?not_elem_of_cons; intuition (try discriminate);
    eapply elem_of_nil; eassumption.
Defined.

(** The details of 404 asked of [{400: "A"} | {404: "B"}]. *)
Lemma details_after_or_witness :
  @get_error_details test_dict_str (fst (__or__ error_400_A error_404_B [])) None (Some 404)
  = Raise TypeError.
Proof.
  apply (@details_after_or test_dict_str error_400_A error_404_B [] None 404).
  - cbn. repeat constructor. apply not_elem_of_nil.
  - cbn. now left.
Defined.

(** The details of [{404: "B"}] asked for 404 with a context. *)
Lemma get_error_details_sound_witness :
  (__dict error_404_B = [] /\ 404 = 500
   /\ "B :=> {url: u}"
      = "Generic Response Error" +:+ @extra_suffix test_dict_str (Some [("url", "u")]))
  \/ (exists s, od_get (__dict error_404_B) 404 = Some (MStr s)
                /\ "B :=> {url: u}" = s +:+ @extra_suffix test_dict_str (Some [("url", "u")])
                /\ (Some 404 = Some 404
                    \/ (Some 404 = None /\ exists kv, __dict error_404_B = [kv]))).
Proof.
  exact (@get_error_details_sound test_dict_str error_404_B
           (Some [("url", "u")]) (Some 404) 404 "B :=> {url: u}" eq_refl).
Defined.

(** ** The combination of any two error values *)

Lemma deref_extend_eq (h : Heap) (l : nat) (items : list string) :
  (l < List.length h)%nat -> deref (extend l items h) l = deref h l ++ items.
Proof.
  intros Hl. unfold deref, extend. rewrite list_lookup_alter_eq.
  destruct (lookup_lt_is_Some_2 h l Hl) as [v ->]. reflexivity.
Qed.

Lemma deref_extend_ne (h : Heap) (l l' : nat) (items : list string) :
  l <> l' -> deref (extend l items h) l' = deref h l'.
Proof.
  intros Hne. unfold deref, extend. now rewrite list_lookup_alter_ne.
Qed.

Lemma length_extend (h : Heap) (l : nat) (items : list string) :
  List.length (extend l items h) = List.length h.
Proof. apply length_alter. Qed.

Lemma od_wf_mono (h h' : Heap) (d : OrderedDict) :
  (List.length h <= List.length h')%nat -> od_wf h d -> od_wf h' d.
Proof. intros Hlen Hwf k l Hin. specialize (Hwf k l Hin). lia. Qed.

Lemma od_get_elem {V : Type} (d : list (StatusCode * V)) (k : StatusCode) (v : V) :
  od_get d k = Some v -> (k, v) ∈ d.
Proof.
  induction d as [| [k' w] d IH]; cbn; [discriminate |].
  destruct (Z.eqb_spec k' k) as [-> | Hne].
  - intros [= ->]. now left.
  - intros Hget. right. now apply IH.
Qed.

Lemma elem_od_get {V : Type} (d : list (StatusCode * V)) (k : StatusCode) (v : V) :
  NoDup (map fst d) -> (k, v) ∈ d -> od_get d k = Some v.
Proof.
  induction d as [| [k' w] d IH]; intros Hnodup Hin.
  - now apply elem_of_nil in Hin.
  - change (map fst ((k', w) :: d)) with (k' :: map fst d) in Hnodup.
    apply list.NoDup_cons in Hnodup as [Hk' Hnodup].
    apply elem_of_cons in Hin as [[= -> ->] | Hin].
    + apply od_get_cons_eq.
    + rewrite od_get_cons_ne; [now apply IH |].
      intros ->. apply Hk'. apply list_elem_of_fmap. now exists (k, v).
Qed.

(** The list that [buff[key]] is bound to before it is extended: it holds
    the messages of the old value, and is either the list the old value
    was or a new one. *)
Lemma kept_list (buff : OrderedDict) (h : Heap) (k : StatusCode) :
  od_wf h buff -> od_no_empty buff ->
  exists (l1 : nat) (e1 : Heap),
    match od_get buff k with
    | Some m0 => if truthy h (od_get buff k) then _listify m0 h else alloc [] h
    | None => alloc [] h
    end = (l1, h ++ e1)
    /\ (l1 < List.length (h ++ e1))%nat
    /\ deref (h ++ e1) l1 = default [] (messages h <$> od_get buff k)
    /\ (od_get buff k = Some (MList l1) /\ deref h l1 <> []
        \/ (List.length h <= l1)%nat
           /\ forall l, od_get buff k = Some (MList l) -> deref h l = []).
Proof.
  intros Hwf Hne.
  assert (Hnew : forall v : list string,
             alloc v h = (List.length h, h ++ [v])
             /\ (List.length h < List.length (h ++ [v]))%nat
             /\ deref (h ++ [v]) (List.length h) = v).
  { intros v. split; [reflexivity |]. split.
    - rewrite length_app. cbn. lia.
    - apply (deref_alloc h v). }
  destruct (od_get buff k) as [[t | l] |] eqn:Hget; cbn [truthy].
  - assert (Ht : t <> "").
    { intros ->. apply (Hne k). now apply od_get_elem. }
    destruct (String.eqb_spec t ""); [contradiction |]. cbn [negb _listify].
    destruct (Hnew [t]) as (Ha & Hb & Hc).
    exists (List.length h), [[t]].
    split; [exact Ha |]. split; [exact Hb |]. split; [exact Hc |].
    right. split; [lia | discriminate].
  - assert (Hl : (l < List.length h)%nat).
    { apply (Hwf k). now apply od_get_elem. }
    destruct (deref h l) as [| x xs] eqn:Hd.
    + destruct (Hnew []) as (Ha & Hb & Hc).
      exists (List.length h), [[]].
      split; [exact Ha |]. split; [exact Hb |]. split.
      * rewrite Hc. cbn. now rewrite Hd.
      * right. split; [lia |]. now intros l' [= <-].
    + cbn [_listify]. exists l, []. rewrite app_nil_r.
      split; [reflexivity |]. split; [exact Hl |]. split; [reflexivity |].
      left. split; [reflexivity |]. now rewrite Hd.
  - destruct (Hnew []) as (Ha & Hb & Hc).
    exists (List.length h), [[]].
    split; [exact Ha |]. split; [exact Hb |]. split; [exact Hc |].
    right. split; [lia | discriminate].
Qed.

(** One turn of the loop of [__or__], for any value of [b]: the key is
    bound to a list that holds the kept messages and then the messages of
    [b]; no other object is written, and the store only grows. *)
Lemma or_step_general (buff : OrderedDict) (h : Heap) (k : StatusCode) (m : Msg) :
  od_wf h buff -> od_no_empty buff ->
  (forall l, m = MList l -> (l < List.length h)%nat) ->
  exists (l1 : nat) (h1 : Heap),
    or_step (buff, h) (k, m) = (od_set buff k (MList l1), h1)
    /\ deref h1 l1 = default [] (messages h <$> od_get buff k) ++ messages h m
    /\ (forall l, (l < List.length h)%nat -> l <> l1 -> deref h1 l = deref h l)
    /\ (List.length h <= List.length h1)%nat
    /\ (l1 < List.length h1)%nat
    /\ (od_get buff k = Some (MList l1) /\ deref h l1 <> []
        \/ (List.length h <= l1)%nat
           /\ forall l, od_get buff k = Some (MList l) -> deref h l = []).
Proof.
  intros Hwf Hne Hm. unfold or_step.
  destruct (kept_list buff h k Hwf Hne) as (l1 & e1 & -> & Hl1 & Hkept & Hwhere).
  assert (Hm1 : forall l, m = MList l -> (l < List.length (h ++ e1))%nat).
  { intros l Hl. specialize (Hm l Hl). rewrite length_app. lia. }
  destruct (listify_spec (h ++ e1) m Hm1) as (e2 & He2 & Hitems).
  destruct (_listify m (h ++ e1)) as [lm h2]. cbn [fst snd] in He2, Hitems. subst h2.
  rewrite Hitems, (messages_app h e1 m Hm).
  exists l1, (extend l1 (messages h m) ((h ++ e1) ++ e2)).
  split; [reflexivity |]. split; [| split; [| split; [| split]]].
  - rewrite deref_extend_eq by (rewrite length_app; lia).
    rewrite deref_app_l by exact Hl1. now rewrite Hkept.
  - intros l Hl Hneq. rewrite deref_extend_ne by congruence.
    rewrite <- app_assoc. now apply deref_app_l.
  - rewrite length_extend, !length_app. lia.
  - rewrite length_extend, length_app. lia.
  - exact Hwhere.
Qed.

Lemma elem_od_set_eq {V : Type} (d : list (StatusCode * V)) (k : StatusCode) (v w : V) :
  NoDup (map fst d) -> (k, w) ∈ od_set d k v -> w = v.
Proof.
  intros Hnodup Hin.
  apply (elem_od_get _ _ _ (od_set_NoDup d k v Hnodup)) in Hin.
  rewrite od_get_set_eq in Hin. congruence.
Qed.

Lemma view_ext (h h' : Heap) (d : OrderedDict) :
  (forall k m, (k, m) ∈ d -> messages h' m = messages h m) ->
  view h' (mkResponseError d) = view h (mkResponseError d).
Proof.
  intros Hsame. unfold view; cbn [__dict].
  apply map_ext_in. intros [k m] Hin. cbn [fst snd]. f_equal.
  apply (Hsame k). now apply list_elem_of_In.
Qed.

Lemma view_od_set (h h' : Heap) (buff : OrderedDict) (k : StatusCode) (l1 : nat) :
  NoDup (map fst buff) ->
  (forall k' m', (k', m') ∈ buff -> k' <> k -> messages h' m' = messages h m') ->
  view h' (mkResponseError (od_set buff k (MList l1)))
  = od_set (view h (mkResponseError buff)) k (deref h' l1).
Proof.
  unfold view; cbn [__dict].
  induction buff as [| [k0 w] d IH]; intros Hnodup Hsame; [reflexivity |].
  change (map fst ((k0, w) :: d)) with (k0 :: map fst d) in Hnodup.
  apply list.NoDup_cons in Hnodup as [Hk0 Hnodup].
  cbn [od_set map fst snd].
  destruct (Z.eqb_spec k0 k) as [-> | Hne]; cbn [map fst snd messages].
  - f_equal. apply map_ext_in. intros [k' m'] Hin. cbn [fst snd]. f_equal.
    apply list_elem_of_In in Hin.
    apply (Hsame k'); [now right |].
    intros ->. apply Hk0. apply list_elem_of_fmap. now exists (k, m').
  - f_equal.
    + f_equal. apply (Hsame k0); [now left | exact Hne].
    + apply IH; [exact Hnodup |].
      intros k' m' Hin. apply Hsame. now right.
Qed.

(** The loop of [__or__] over any dictionary [b] whose lists are not those
    of [buff]. *)
Lemma or_fold_general (b : OrderedDict) :
  forall (buff : OrderedDict) (h : Heap),
    NoDup (map fst b) -> od_wf h b ->
    od_ok h buff -> od_no_empty buff -> od_disjoint buff b ->
    exists (r : OrderedDict) (h' : Heap),
      fold_left or_step b (buff, h) = (r, h')
      /\ view h' (mkResponseError r)
         = combine_spec (view h (mkResponseError buff)) (view h (mkResponseError b))
      /\ od_ok h' r /\ od_no_empty r
      /\ (List.length h <= List.length h')%nat
      /\ (forall l, (l < List.length h)%nat -> (forall k, (k, MList l) ∉ buff) ->
                    deref h' l = deref h l)
      /\ (forall k l, (k, MList l) ∈ r ->
                      (exists k0, (k0, MList l) ∈ buff) \/ (List.length h <= l)%nat)
      /\ (forall k, k ∉ map fst b -> od_get r k = od_get buff k)
      /\ (forall k l, od_get buff k = Some (MList l) -> deref h l <> [] ->
                      od_get r k = Some (MList l))
      /\ (forall k l, od_get buff k = Some (MList l) -> deref h l = [] ->
                      deref h' l = []).
Proof.
  induction b as [| [k m] b IH]; intros buff h Hnb Hwfb Hok Hne Hdis.
  - exists buff, h. cbn [fold_left].
    split; [reflexivity |]. split; [now rewrite combine_spec_nil |].
    split; [exact Hok |]. split; [exact Hne |]. split; [lia |].
    split; [reflexivity |]. split; [| split; [reflexivity |]; split; auto].
    intros k l Hin. left. now exists k.
  - destruct Hok as (Hnbuff & Hwf & Hsep).
    change (map fst ((k, m) :: b)) with (k :: map fst b) in Hnb.
    apply list.NoDup_cons in Hnb as [Hkb Hnb].
    assert (Hm : forall l, m = MList l -> (l < List.length h)%nat).
    { intros l ->. apply (Hwfb k). now left. }
    destruct (or_step_general buff h k m Hwf Hne Hm)
      as (l1 & h1 & Hstep & Hd1 & Hframe1 & Hlen1 & Hl1 & Hwhere1).
    assert (Hcase : (k, MList l1) ∈ buff \/ (List.length h <= l1)%nat).
    { destruct Hwhere1 as [[Hget _] | [Hfresh _]];
        [left; now apply od_get_elem | now right]. }
    assert (Hl1_buff : forall k2, (k2, MList l1) ∈ buff -> k2 = k).
    { intros k2 Hin. destruct Hcase as [Hheld | Hfresh].
      - apply (Hsep k2 k l1 Hin Hheld).
      - specialize (Hwf k2 l1 Hin). lia. }
    assert (Hl1_b : forall k2, (k2, MList l1) ∈ (k, m) :: b -> False).
    { intros k2 Hin. destruct Hcase as [Hheld | Hfresh].
      - apply (Hdis k k2 l1 Hheld Hin).
      - specialize (Hwfb k2 l1 Hin). lia. }
    assert (Hwfb1 : od_wf h1 b).
    { apply (od_wf_mono h h1); [exact Hlen1 |].
      intros k' l Hin. apply (Hwfb k'). now right. }
    assert (Hok1 : od_ok h1 (od_set buff k (MList l1))).
    { split; [now apply od_set_NoDup |]. split.
      - apply od_wf_set; [now apply (od_wf_mono h h1) |].
        intros l [= <-]. exact Hl1.
      - intros k1 k2 l Hin1 Hin2.
        destruct (Z.eq_dec k1 k) as [-> | Hk1], (Z.eq_dec k2 k) as [-> | Hk2];
          [reflexivity | | |].
        + apply elem_od_set_eq in Hin1; [| exact Hnbuff]. injection Hin1 as ->.
          apply elem_of_od_set in Hin2 as [Hin2 | Heq]; [| congruence].
          symmetry. now apply Hl1_buff.
        + apply elem_od_set_eq in Hin2; [| exact Hnbuff]. injection Hin2 as ->.
          apply elem_of_od_set in Hin1 as [Hin1 | Heq]; [| congruence].
          now apply Hl1_buff.
        + apply elem_of_od_set in Hin1 as [Hin1 | Heq]; [| congruence].
          apply elem_of_od_set in Hin2 as [Hin2 | Heq]; [| congruence].
          apply (Hsep k1 k2 l Hin1 Hin2). }
    assert (Hne1 : od_no_empty (od_set buff k (MList l1))).
    { intros k' Hin. apply elem_of_od_set in Hin as [Hin | Heq]; [| congruence].
      now apply (Hne k'). }
    assert (Hdis1 : od_disjoint (od_set buff k (MList l1)) b).
    { intros k1 k2 l Hin1 Hin2.
      apply elem_of_od_set in Hin1 as [Hin1 | [= -> ->]].
      - apply (Hdis k1 k2 l Hin1). now right.
      - apply (Hl1_b k2). now right. }
    destruct (IH (od_set buff k (MList l1)) h1 Hnb Hwfb1 Hok1 Hne1 Hdis1)
      as (r & h' & Hfold & Hview & Hokr & Hner & Hlen & Hframe & Horigin & Hkeep
          & Hsame & Hempty).
    assert (Hother : forall k' l, k' <> k -> od_get buff k' = Some (MList l) ->
                       od_get (od_set buff k (MList l1)) k' = Some (MList l)
                       /\ deref h1 l = deref h l).
    { intros k' l Hk' Hget. split.
      - rewrite od_get_set_ne by congruence. exact Hget.
      - apply od_get_elem in Hget.
        apply Hframe1; [now apply (Hwf k') |].
        intros ->. now apply Hk', Hl1_buff. }
    exists r, h'. cbn [fold_left]. rewrite Hstep.
    split; [exact Hfold |]. split; [| split; [exact Hokr |]].
    2: split; [exact Hner |]. 2: split; [lia |].
    2: split; [| split; [| split; [| split]]].
    + rewrite Hview.
      rewrite (view_od_set h h1 buff k l1 Hnbuff).
      * rewrite (view_ext h h1 b).
        -- rewrite Hd1.
           replace (messages h <$> od_get buff k)
             with (od_get (view h (mkResponseError buff)) k)
             by (unfold view; cbn [__dict]; apply od_get_map).
           apply (combine_spec_cons (view h (mkResponseError buff))
                    (view h (mkResponseError b)) k (messages h m)).
           ++ now rewrite view_keys.
           ++ now rewrite view_keys.
        -- intros k' [s | l] Hin; [reflexivity |]. cbn [messages].
           apply Hframe1; [apply (Hwfb k'); now right |].
           intros ->. apply (Hl1_b k'). now right.
      * intros k' [s | l] Hin Hk'; [reflexivity |]. cbn [messages].
        apply Hframe1; [now apply (Hwf k') |].
        intros ->. now apply Hk', Hl1_buff.
    + intros l Hl Hnot.
      assert (Hll1 : l <> l1).
      { intros ->. destruct Hcase as [Hheld | Hfresh]; [now apply (Hnot k) | lia]. }
      rewrite Hframe; [now apply Hframe1 | lia |].
      intros k' Hin. apply elem_of_od_set in Hin as [Hin | [= _ ->]].
      * now apply (Hnot k').
      * now apply Hll1.
    + intros k' l Hin.
      destruct (Horigin k' l Hin) as [[k0 Hin0] | Hfresh]; [| right; lia].
      apply elem_of_od_set in Hin0 as [Hin0 | [= _ ->]].
      * left. now exists k0.
      * destruct Hcase as [Hheld | Hfresh]; [left; now exists k | now right].
    + intros k' Hk'. apply not_elem_of_cons in Hk' as [Hkk' Hk'].
      rewrite (Hkeep k' Hk'). apply od_get_set_ne. intros ->. now apply Hkk'.
    + intros k' l Hget Hfull. destruct (Z.eq_dec k' k) as [-> | Hk'].
      * destruct Hwhere1 as [[Hget1 _] | [_ Hnone]];
          [| now specialize (Hnone l Hget)].
        assert (l1 = l) as -> by congruence.
        apply Hsame; [apply od_get_set_eq |].
        rewrite Hd1, Hget. cbn. intros Happ.
        apply app_eq_nil in Happ as [Happ _]. now apply Hfull.
      * destruct (Hother k' l Hk' Hget) as [Hget1 Hd].
        apply Hsame; [exact Hget1 | now rewrite Hd].
    + intros k' l Hget Hnil. destruct (Z.eq_dec k' k) as [-> | Hk'].
      * assert (Hl : (l < List.length h)%nat).
        { apply (Hwf k). now apply od_get_elem. }
        assert (Hll1 : l <> l1).
        { destruct Hwhere1 as [[Hget1 Hfull] | [Hfresh _]]; [| lia].
          intros ->. now apply Hfull. }
        rewrite Hframe; [rewrite Hframe1; auto | lia |].
        intros k2 Hin.
        destruct (Z.eq_dec k2 k) as [-> | Hk2].
        -- apply elem_od_set_eq in Hin; [| exact Hnbuff]. congruence.
        -- apply elem_of_od_set in Hin as [Hin | Heq]; [| congruence].
           apply Hk2. apply (Hsep k2 k l Hin). now apply od_get_elem.
      * destruct (Hother k' l Hk' Hget) as [Hget1 Hd].
        apply (Hempty k' l Hget1). now rewrite Hd.
Qed.

Lemma view_frame (h h' : Heap) (d : OrderedDict) :
  (forall k l, (k, MList l) ∈ d -> deref h' l = deref h l) ->
  view h' (mkResponseError d) = view h (mkResponseError d).
Proof.
  intros Hsame. apply view_ext.
  intros k [s | l] Hin; [reflexivity |]. now apply (Hsame k).
Qed.

(** [a | b] for operands that share no list object. *)
Lemma or_general (a b : ResponseError) (h : Heap) :
  od_ok h (__dict a) -> od_no_empty (__dict a) ->
  NoDup (map fst (__dict b)) -> od_wf h (__dict b) ->
  od_disjoint (__dict a) (__dict b) ->
  exists (r : ResponseError) (h' : Heap),
    __or__ a b h = (r, h')
    /\ view h' r = combine_spec (view h a) (view h b)
    /\ od_ok h' (__dict r) /\ od_no_empty (__dict r)
    /\ (List.length h <= List.length h')%nat
    /\ (forall l, (l < List.length h)%nat -> (forall k, (k, MList l) ∉ __dict a) ->
                  deref h' l = deref h l)
    /\ (forall k l, (k, MList l) ∈ __dict r ->
                    (exists k0, (k0, MList l) ∈ __dict a) \/ (List.length h <= l)%nat)
    /\ (forall k, k ∉ map fst (__dict b) -> od_get (__dict r) k = od_get (__dict a) k)
    /\ (forall k l, od_get (__dict a) k = Some (MList l) -> deref h l <> [] ->
                    od_get (__dict r) k = Some (MList l))
    /\ (forall k l, od_get (__dict a) k = Some (MList l) -> deref h l = [] ->
                    deref h' l = []).
Proof.
  destruct a as [da], b as [db]. cbn [__dict]. intros Hok Hne Hnb Hwfb Hdis.
  destruct (or_fold_general db da h Hnb Hwfb Hok Hne Hdis)
    as (r & h' & Hfold & Hrest).
  exists (mkResponseError r), h'. unfold __or__. cbn [__dict]. rewrite Hfold.
  split; [reflexivity | exact Hrest].
Qed.

(** A list of [b] is no list of [a], so it reads after [a | b] as before. *)
Lemma disjoint_frame (h h' : Heap) (a b : OrderedDict) :
  od_wf h b -> od_disjoint a b ->
  (forall l, (l < List.length h)%nat -> (forall k, (k, MList l) ∉ a) ->
             deref h' l = deref h l) ->
  view h' (mkResponseError b) = view h (mkResponseError b).
Proof.
  intros Hwfb Hdis Hframe. apply view_frame. intros k l Hin.
  apply Hframe; [now apply (Hwfb k) |].
  intros k0 Hin0. apply (Hdis k0 k l Hin0 Hin).
Qed.

(** For any two error values whose list objects are live and
    separate (no list under two codes of [a], none shared between [a] and
    [b]) and with no bare empty message in [a], [a | b] reads as the ordered
    merge: the codes of [a] in their order, each with the messages of [a]
    followed by those of [b], then the codes only [b] has; and [b] reads
    afterwards as it did before. *)
Theorem or_merge (a b : ResponseError) (h : Heap) :
  od_ok h (__dict a) -> od_no_empty (__dict a) ->
  NoDup (map fst (__dict b)) -> od_wf h (__dict b) ->
  od_disjoint (__dict a) (__dict b) ->
  let r := __or__ a b h in
  view (snd r) (fst r) = combine_spec (view h a) (view h b)
  /\ view (snd r) b = view h b.
Proof.
  intros Hok Hne Hnb Hwfb Hdis.
  destruct (or_general a b h Hok Hne Hnb Hwfb Hdis)
    as (r & h' & Hor & Hview & _ & _ & _ & Hframe & _).
  cbn zeta. rewrite Hor. cbn [fst snd]. split; [exact Hview |].
  destruct b as [db]. now apply (disjoint_frame h h' (__dict a) db).
Qed.

(** Under the same conditions the result of [a | b] is again such an
    operand in the new store; each of its lists is a list of [a] or a new
    one, never one of [b]; no list that [a] does not hold is written; and a
    code that [b] does not have keeps the very value it has in [a]. *)
Theorem or_result_operand (a b : ResponseError) (h : Heap) :
  od_ok h (__dict a) -> od_no_empty (__dict a) ->
  NoDup (map fst (__dict b)) -> od_wf h (__dict b) ->
  od_disjoint (__dict a) (__dict b) ->
  let r := __or__ a b h in
  od_ok (snd r) (__dict (fst r)) /\ od_no_empty (__dict (fst r))
  /\ od_disjoint (__dict (fst r)) (__dict b)
  /\ (forall l, (l < List.length h)%nat -> (forall k, (k, MList l) ∉ __dict a) ->
                deref (snd r) l = deref h l)
  /\ (forall k, k ∉ map fst (__dict b) ->
                od_get (__dict (fst r)) k = od_get (__dict a) k).
Proof.
  intros Hok Hne Hnb Hwfb Hdis.
  destruct (or_general a b h Hok Hne Hnb Hwfb Hdis)
    as (r & h' & Hor & _ & Hokr & Hner & _ & Hframe & Horigin & Hkeep & _).
  cbn zeta. rewrite Hor. cbn [fst snd].
  split; [exact Hokr |]. split; [exact Hner |].
  split; [| split; [exact Hframe | exact Hkeep]].
  intros k1 k2 l Hin1 Hin2.
  destruct (Horigin k1 l Hin1) as [[k0 Hin0] | Hfresh].
  - apply (Hdis k0 k2 l Hin0 Hin2).
  - specialize (Hwfb k2 l Hin2). lia.
Qed.

(** Membership in a list that is written out. *)
Ltac elems :=
  repeat match goal with
         | H : _ ∈ _ :: _ |- _ => apply elem_of_cons in H as [H | H]
         | H : _ ∈ [] |- _ => now apply elem_of_nil in H
         end;
  simplify_eq.

Ltac keys_once :=
  cbn; repeat constructor; rewrite ?not_elem_of_cons;
  intuition (try discriminate); eapply elem_of_nil; eassumption.

Lemma or_merge_witness :
  let a := mkResponseError [(400, MList 0%nat); (404, MStr "B")] in
  let b := mkResponseError [(400, MList 1%nat); (500, MStr "C")] in
  let h := [["A"; "B"]; ["D"]] in
  view (snd (__or__ a b h)) (fst (__or__ a b h))
  = [(400, ["A"; "B"; "D"]); (404, ["B"]); (500, ["C"])]
  /\ view (snd (__or__ a b h)) b = [(400, ["D"]); (500, ["C"])].
Proof.
  apply (or_merge (mkResponseError [(400, MList 0%nat); (404, MStr "B")])
                  (mkResponseError [(400, MList 1%nat); (500, MStr "C")])
                  [["A"; "B"]; ["D"]]).
  - split; [keys_once |]. split.
    + intros k l Hin. cbn in Hin. elems. cbn. lia.
    + intros k k' l Hin Hin'. cbn in Hin, Hin'. elems. reflexivity.
  - intros k Hin. cbn in Hin. elems.
  - keys_once.
  - intros k l Hin. cbn in Hin. elems. cbn. lia.
  - intros k k' l Hin Hin'. cbn in Hin, Hin'. elems.
Defined.

Lemma or_result_operand_witness :
  let a := mkResponseError [(400, MList 0%nat); (404, MStr "B")] in
  let b := mkResponseError [(400, MList 1%nat); (500, MStr "C")] in
  let h := [["A"; "B"]; ["D"]] in
  od_ok (snd (__or__ a b h)) (__dict (fst (__or__ a b h)))
  /\ od_no_empty (__dict (fst (__or__ a b h)))
  /\ od_disjoint (__dict (fst (__or__ a b h))) (__dict b)
  /\ (forall l, (l < List.length h)%nat -> (forall k, (k, MList l) ∉ __dict a) ->
                deref (snd (__or__ a b h)) l = deref h l)
  /\ (forall k, k ∉ map fst (__dict b) ->
                od_get (__dict (fst (__or__ a b h))) k = od_get (__dict a) k).
Proof.
  apply (or_result_operand (mkResponseError [(400, MList 0%nat); (404, MStr "B")])
                           (mkResponseError [(400, MList 1%nat); (500, MStr "C")])
                           [["A"; "B"]; ["D"]]).
  - split; [keys_once |]. split.
    + intros k l Hin. cbn in Hin. elems. cbn. lia.
    + intros k k' l Hin Hin'. cbn in Hin, Hin'. elems. reflexivity.
  - intros k Hin. cbn in Hin. elems.
  - keys_once.
  - intros k l Hin. cbn in Hin. elems. cbn. lia.
  - intros k k' l Hin Hin'. cbn in Hin, Hin'. elems.
Defined.

Lemma od_get_app_Some {V : Type} (x y : list (StatusCode * V)) (k : StatusCode) (v : V) :
  od_get x k = Some v -> od_get (x ++ y) k = Some v.
Proof.
  induction x as [| [k0 v0] x IH]; [discriminate |].
  cbn [od_get app]. now destruct (Z.eqb k0 k).
Qed.

Lemma od_get_combine_spec (va vb : list (StatusCode * list string))
    (k : StatusCode) (ms : list string) :
  od_get va k = Some ms ->
  od_get (combine_spec va vb) k = Some (ms ++ default [] (od_get vb k)).
Proof.
  intros Hget. unfold combine_spec. apply od_get_app_Some.
  induction va as [| [k0 v0] va IH]; [discriminate |].
  cbn [od_get map fst snd] in *.
  destruct (Z.eqb_spec k0 k) as [-> | Hne0].
  - injection Hget as ->. reflexivity.
  - now apply IH.
Qed.

(** What the left operand reads as after [a | b].  A message of [a] that is
    a string reads as before, and so does an empty list.  A list that is
    not empty is the very object the result holds under its code: it has
    been extended in place by the messages [b] has under that code. *)
Theorem or_left_operand_after (a b : ResponseError) (h : Heap)
    (k : StatusCode) (m : Msg) :
  od_ok h (__dict a) -> od_no_empty (__dict a) ->
  NoDup (map fst (__dict b)) -> od_wf h (__dict b) ->
  od_disjoint (__dict a) (__dict b) ->
  (k, m) ∈ __dict a ->
  let r := __or__ a b h in
  match m with
  | MStr s => messages (snd r) m = [s]
  | MList l =>
      match deref h l with
      | [] => deref (snd r) l = []
      | old => deref (snd r) l = old ++ default [] (od_get (view h b) k)
               /\ od_get (__dict (fst r)) k = Some (MList l)
      end
  end.
Proof.
  intros Hok Hne Hnb Hwfb Hdis Hin.
  destruct (or_general a b h Hok Hne Hnb Hwfb Hdis)
    as (r & h' & Hor & Hview & _ & _ & _ & _ & _ & _ & Hsame & Hempty).
  cbn zeta. rewrite Hor. cbn [fst snd].
  destruct m as [s | l]; [reflexivity |].
  assert (Hget : od_get (__dict a) k = Some (MList l)).
  { apply elem_od_get; [apply Hok | exact Hin]. }
  destruct (deref h l) as [| x xs] eqn:Hd.
  - now apply (Hempty k).
  - assert (Hr : od_get (__dict r) k = Some (MList l)).
    { apply Hsame; [exact Hget | now rewrite Hd]. }
    split; [| exact Hr].
    apply (f_equal (fun v => od_get v k)) in Hview.
    unfold view at 1 in Hview. rewrite od_get_map, Hr in Hview.
    rewrite (od_get_combine_spec (view h a) (view h b) k (deref h l)) in Hview.
    + cbn in Hview. injection Hview as ->. now rewrite Hd.
    + unfold view. now rewrite od_get_map, Hget.
Qed.

Lemma or_left_operand_after_witness :
  let a := mkResponseError [(400, MList 0%nat); (404, MStr "B")] in
  let b := mkResponseError [(400, MList 1%nat); (500, MStr "C")] in
  let h := [["A"; "B"]; ["D"]] in
  deref (snd (__or__ a b h)) 0 = ["A"; "B"; "D"]
  /\ od_get (__dict (fst (__or__ a b h))) 400 = Some (MList 0%nat).
Proof.
  apply (or_left_operand_after
           (mkResponseError [(400, MList 0%nat); (404, MStr "B")])
           (mkResponseError [(400, MList 1%nat); (500, MStr "C")])
           [["A"; "B"]; ["D"]] 400 (MList 0%nat)).
  - split; [keys_once |]. split.
    + intros k l Hin. cbn in Hin. elems. cbn. lia.
    + intros k k' l Hin Hin'. cbn in Hin, Hin'. elems. reflexivity.
  - intros k Hin. cbn in Hin. elems.
  - keys_once.
  - intros k l Hin. cbn in Hin. elems. cbn. lia.
  - intros k k' l Hin Hin'. cbn in Hin, Hin'. elems.
  - cbn. now left.
Defined.

(** ** Groups of errors *)

Lemma union_step_some (es : list ResponseError) :
  forall (acc : ResponseError) (h : Heap),
    exists r h', fold_left union_step es (Some acc, h) = (Some r, h').
Proof.
  induction es as [| e es IH]; intros acc h; cbn [fold_left].
  - now exists acc, h.
  - unfold union_step at 2. destruct (__or__ acc e h) as [r h']. apply IH.
Qed.

Lemma fields_nil (cls : ClassDict) :
  fields cls = [] <-> Forall (fun kv => snd kv = AOther) cls.
Proof.
  unfold fields. induction cls as [| [n [e | ]] cls IH]; cbn.
  - split; [constructor | reflexivity].
  - split; [discriminate |]. intros Hall. apply list.Forall_cons in Hall as [Hbad _].
    discriminate Hbad.
  - rewrite IH. split.
    + intros Hall. now constructor.
    + intros Hall. now apply list.Forall_cons in Hall as [_ Hall].
Qed.

(** [union] returns [None], and no error value, exactly when the class
    defines no attribute that is a [ResponseError]; the store is then left
    as it is. *)
Theorem union_none_iff (cls : ClassDict) (h : Heap) :
  (fst (union cls h) = None <-> Forall (fun kv => snd kv = AOther) cls)
  /\ (fst (union cls h) = None -> snd (union cls h) = h).
Proof.
  rewrite <- fields_nil. unfold union.
  destruct (fields cls) as [| [n e] fs]; cbn [map fold_left snd].
  - cbn. split; [split; reflexivity | reflexivity].
  - change (union_step (None, h) e) with (Some e, h).
    destruct (union_step_some (map snd fs) e h) as (r & h' & ->). cbn [fst snd].
    split; [split |]; intros Heq; discriminate Heq.
Qed.

(** A group with one error: [union] is that error, and nothing is written. *)
Lemma union_single (cls : ClassDict) (n : string) (e : ResponseError) (h : Heap) :
  fields cls = [(n, e)] -> union cls h = (Some e, h).
Proof. unfold union. now intros ->. Qed.

Lemma union_fold (es : list ResponseError) :
  forall (acc : ResponseError) (h : Heap),
    od_ok h (__dict acc) -> od_no_empty (__dict acc) ->
    Forall (fun e => NoDup (map fst (__dict e)) /\ od_wf h (__dict e)
                     /\ od_disjoint (__dict acc) (__dict e)) es ->
    exists (r : ResponseError) (h' : Heap),
      fold_left union_step es (Some acc, h) = (Some r, h')
      /\ view h' r = fold_left combine_spec (map (view h) es) (view h acc)
      /\ (List.length h <= List.length h')%nat
      /\ (forall l, (l < List.length h)%nat -> (forall k, (k, MList l) ∉ __dict acc) ->
                    deref h' l = deref h l).
Proof.
  induction es as [| e es IH]; intros acc h Hok Hne Hall.
  - exists acc, h. cbn. split; [reflexivity |]. split; [reflexivity |].
    split; [lia | reflexivity].
  - apply list.Forall_cons in Hall as [(Hne_e & Hwfe & Hdise) Hall].
    destruct (or_general acc e h Hok Hne Hne_e Hwfe Hdise)
      as (r1 & h1 & Hor & Hview1 & Hok1 & Hne1 & Hlen1 & Hframe1 & Horigin1 & _).
    assert (Hall1 : Forall (fun e' => NoDup (map fst (__dict e')) /\ od_wf h1 (__dict e')
                                     /\ od_disjoint (__dict r1) (__dict e')) es).
    { eapply list.Forall_impl; [exact Hall |]. intros e' (Hn' & Hwf' & Hdis').
      split; [exact Hn' |]. split; [now apply (od_wf_mono h h1) |].
      intros k1 k2 l Hin1 Hin2.
      destruct (Horigin1 k1 l Hin1) as [[k0 Hin0] | Hfresh].
      - apply (Hdis' k0 k2 l Hin0 Hin2).
      - specialize (Hwf' k2 l Hin2). lia. }
    destruct (IH r1 h1 Hok1 Hne1 Hall1) as (r & h' & Hfold & Hview & Hlen & Hframe).
    exists r, h'. cbn [fold_left map]. unfold union_step at 2. rewrite Hor.
    split; [exact Hfold |]. split; [| split; [lia |]].
    + rewrite Hview, Hview1. f_equal.
      apply map_ext_in. intros e' Hin.
      rewrite List.Forall_forall in Hall. destruct (Hall e' Hin) as (_ & Hwf' & Hdis').
      destruct e' as [d']. now apply (disjoint_frame h h1 (__dict acc) d').
    + intros l Hl Hnot. rewrite Hframe; [now apply Hframe1 | lia |].
      intros k Hin. destruct (Horigin1 k l Hin) as [[k0 Hin0] | Hfresh]; [| lia].
      now apply (Hnot k0).
Qed.

(** The union of a group.  Let the first error of the class be an operand
    (its lists live and separate, no bare empty message) and let every later
    one have each code once and lists that are live and not held by the
    first.  Then [union] returns an error value that reads as the merge of
    all of them from left to right, and every error but the first reads
    afterwards as it did before. *)
Theorem union_merge (cls : ClassDict) (n0 : string) (e0 : ResponseError)
    (rest : list (string * ResponseError)) (h : Heap) :
  fields cls = (n0, e0) :: rest ->
  od_ok h (__dict e0) -> od_no_empty (__dict e0) ->
  Forall (fun e => NoDup (map fst (__dict e)) /\ od_wf h (__dict e)
                   /\ od_disjoint (__dict e0) (__dict e)) (map snd rest) ->
  exists (r : ResponseError) (h' : Heap),
    union cls h = (Some r, h')
    /\ view h' r = fold_left combine_spec (map (view h) (map snd rest)) (view h e0)
    /\ Forall (fun e => view h' e = view h e) (map snd rest).
Proof.
  intros Hfields Hok Hne Hall.
  destruct (union_fold (map snd rest) e0 h Hok Hne Hall)
    as (r & h' & Hfold & Hview & _ & Hframe).
  exists r, h'. unfold union. rewrite Hfields. cbn [map fold_left snd].
  unfold union_step at 2.
  split; [exact Hfold |]. split; [exact Hview |].
  eapply list.Forall_impl; [exact Hall |]. intros [d] (_ & Hwf & Hdis).
  now apply (disjoint_frame h h' (__dict e0) d).
Qed.

Lemma union_merge_witness :
  exists (r : ResponseError) (h' : Heap),
    union [("__module__", AOther); ("A", AError error_400_A);
           ("B", AError error_404_B); ("C", AError error_400_B)] []
    = (Some r, h')
    /\ view h' r = [(400, ["A"; "B"]); (404, ["B"])]
    /\ Forall (fun e => view h' e = view [] e) [error_404_B; error_400_B].
Proof.
  apply (union_merge [("__module__", AOther); ("A", AError error_400_A);
                      ("B", AError error_404_B); ("C", AError error_400_B)]
                     "A" error_400_A [("B", error_404_B); ("C", error_400_B)] []).
  - reflexivity.
  - split; [keys_once |]. split.
    + intros k l Hin. cbn in Hin. elems.
    + intros k k' l Hin Hin'. cbn in Hin. elems.
  - intros k Hin. cbn in Hin. elems.
  - cbn [map snd]. repeat apply list.Forall_cons_2; [| | constructor].
    + split; [keys_once |]. split.
      * intros k l Hin. cbn in Hin. elems.
      * intros k k' l Hin Hin'. cbn in Hin. elems.
    + split; [keys_once |]. split.
      * intros k l Hin. cbn in Hin. elems.
      * intros k k' l Hin Hin'. cbn in Hin. elems.
Defined.

(** ** The connection manager *)

Section MongoFacts.
Context `{DictStr}.
Variable errs : DatabaseErrors.
Variable server : Server.

(** Unfold the computations and split on what the code branches on. *)
Ltac fields :=
  cbn [cls logger closed fst snd __client __database_config __main_collection
       __main_database set_client set_database_config set_main_collection
       set_main_database] in *.

Ltac run :=
  unfold initialize, connect, close, get_collection, get_database,
    list_database_names, main_collection, main_database, try_except_connection,
    with_logger, bind, ret, raise, await, get_cls, set_cls, client_close in *;
  fields.

Ltac branches := repeat (case_match; fields; simplify_eq).

(** *** Termination through an error constant *)

Lemma sys_exit_log_resolvable (e : ResponseError) (code : Z)
    (extra : ExtraInformation) (lg : Logger) :
  resolvable e = true ->
  sys_exit_log e code extra None lg
  = (Raise (SystemExit code), lg ++ [mkLog ERROR (logged_status e)]).
Proof.
  unfold resolvable, sys_exit_log, get_error_details, logged_status.
  destruct e as [d]; cbn [__dict].
  destruct d as [| [k [s | l]] [| e2 d]]; cbn; congruence.
Qed.

(** [sys_exit_log] never returns: it exits, or the resolution of the
    details raises. *)
Lemma sys_exit_log_raises (e : ResponseError) (code : Z)
    (extra : ExtraInformation) (sc : option StatusCode) (lg : Logger) :
  fst (sys_exit_log e code extra sc lg) <> Ret tt.
Proof.
  unfold sys_exit_log.
  destruct (get_error_details e extra sc) as [[k m] | x]; cbn; discriminate.
Qed.

Lemma sys_exit_log_raises_in (e : ResponseError) (code : Z)
    (extra : ExtraInformation) (p : Process) :
  fst (with_logger (sys_exit_log e code extra None) p) = Ret tt -> False.
Proof.
  unfold with_logger. intros Hret.
  apply (sys_exit_log_raises e code extra None (logger p)).
  now destruct (sys_exit_log e code extra None (logger p)).
Qed.

Lemma log_as_warning_resolvable (e : ResponseError) (lg : Logger) :
  resolvable e = true ->
  log_as_warning e None None lg = (Ret tt, lg ++ [mkLog WARNING (logged_status e)]).
Proof.
  unfold resolvable, log_as_warning, get_error_details, logged_status.
  destruct e as [d]; cbn [__dict].
  destruct d as [| [k [s | l]] [| e2 d]]; cbn; congruence.
Qed.

(** The context of a terminating call is rendered at the end of the message
    of the details it resolves. *)
Lemma details_carry_context (e : ResponseError) (kv : string * string)
    (rest : list (string * string)) :
  resolvable e = true ->
  exists k m,
    get_error_details e (Some (kv :: rest)) None
    = Ret (k, m +:+ " :=> " +:+ dict_str (kv :: rest)).
Proof.
  unfold resolvable, get_error_details.
  destruct e as [d]; cbn [__dict].
  destruct d as [| [k [s | l]] [| e2 d]]; cbn; try congruence; eauto.
Qed.

(** *** The cached configuration *)

(** No path of [initialize] writes the cached configuration. *)
Lemma initialize_keeps_config (database_config : DatabaseConfig) (p : Process) :
  __database_config (cls (snd (initialize errs server database_config p)))
  = __database_config (cls p).
Proof.
  destruct p as [[c g mc md] lg cl]. run. unfold sys_exit_log, log_as_warning.
  branches; reflexivity.
Qed.

Lemma close_config (p : Process) :
  __database_config (cls (snd (close errs p))) = None
  \/ snd (close errs p) = {| cls := cls p; logger := logger (snd (close errs p));
                             closed := closed p |}.
Proof.
  destruct p as [[c g mc md] lg cl]. run. unfold sys_exit_log.
  branches; auto.
Qed.

(** In every process the methods produce, no configuration is cached. *)
Lemma reachable_no_config (p : Process) :
  reachable errs server p -> __database_config (cls p) = None.
Proof.
  induction 1 as [| cfg p Hp IH | p Hp IH].
  - reflexivity.
  - now rewrite initialize_keeps_config.
  - destruct (close_config p) as [Hnone | Hsame]; [assumption |].
    rewrite Hsame. exact IH.
Qed.

(** With no cached configuration [initialize] is lines 149-173. *)
Lemma initialize_no_config (database_config : DatabaseConfig) (p : Process) :
  __database_config (cls p) = None ->
  initialize errs server database_config p = connect errs server database_config p.
Proof.
  intros Hnone. unfold initialize, bind, get_cls. now rewrite Hnone.
Qed.

(** The guard itself, in a process where a configuration is cached. *)
Lemma initialize_guard (database_config cached : DatabaseConfig) (p : Process) :
  __database_config (cls p) = Some cached ->
  resolvable (Client_AlreadyOpenError errs) = true ->
  resolvable (Client_InconsistencyError errs) = true ->
  resolvable (Client_ReinitializeConfigError errs) = true ->
  (database_config = cached -> __client (cls p) <> None ->
     initialize errs server database_config p
     = (Ret tt, {| cls := cls p;
                   logger := logger p
                             ++ [mkLog WARNING (logged_status (Client_AlreadyOpenError errs))];
                   closed := closed p |}))
  /\ (database_config = cached -> __client (cls p) = None ->
     fst (initialize errs server database_config p) = Raise (SystemExit EIO))
  /\ (database_config <> cached ->
     fst (initialize errs server database_config p) = Raise (SystemExit EIO)).
Proof.
  intros Hcached Hopen Hinc Hre.
  unfold initialize, bind, get_cls, with_logger. rewrite Hcached.
  repeat split.
  - intros -> Hclient. rewrite bool_decide_eq_true_2 by reflexivity.
    destruct (__client (cls p)); [| congruence].
    now rewrite log_as_warning_resolvable.
  - intros -> Hclient. rewrite bool_decide_eq_true_2 by reflexivity.
    rewrite Hclient. now rewrite sys_exit_log_resolvable.
  - intros Hne. rewrite bool_decide_eq_false_2 by assumption.
    now rewrite sys_exit_log_resolvable.
Qed.

(** *** Initialization *)

Lemma bind_sys_exit_log {A} (e : ResponseError) (code : Z) (extra : ExtraInformation)
    (k : unit -> M A) (p : Process) :
  exists x : Exc,
    fst (with_logger (sys_exit_log e code extra None) p) = Raise x
    /\ bind (with_logger (sys_exit_log e code extra None)) k p
       = (Raise x, snd (with_logger (sys_exit_log e code extra None) p)).
Proof.
  unfold bind, with_logger, sys_exit_log.
  destruct (get_error_details e extra None) as [[c m] | x]; cbn; eauto.
Qed.

Lemma exits_intro (e : ResponseError) (code : Z) (extra : ExtraInformation)
    (p : Process) (r : Result unit * Process) :
  r = with_logger (sys_exit_log e code extra None) p -> exits e code extra p r.
Proof.
  intros ->. unfold exits. repeat split.
  - intros Hres. unfold with_logger. now rewrite sys_exit_log_resolvable.
  - intros kv rest Hres ->. now apply details_carry_context.
Qed.

Lemma connect_probe_fails (database_config : DatabaseConfig) (p : Process) :
  server_database_names server (mkClient (url database_config) (timeout database_config))
    = Raise ConnectionFailure
  \/ server_database_names server (mkClient (url database_config) (timeout database_config))
    = Raise ServerSelectionTimeoutError ->
  connect errs server database_config p
  = with_logger (sys_exit_log (Client_ConnectionError errs) EIO
                   (Some [("url", url database_config)]) None)
      (with_client database_config p).
Proof.
  intros Hprobe. unfold connect.
  unfold bind at 1. unfold set_cls at 1. fold (with_client database_config p).
  unfold bind at 1. unfold try_except_connection, await.
  destruct (bind_sys_exit_log (Client_ConnectionError errs) EIO
              (Some [("url", url database_config)])
              (fun _ => ret (A := list string) []) (with_client database_config p))
    as (x & Hfst & Hbind).
  destruct Hprobe as [-> | ->]; rewrite Hbind;
    rewrite <- Hfst; now destruct (with_logger _ _).
Qed.

Lemma bind_exit (e : ResponseError) (code : Z) (extra : ExtraInformation)
    (k : unit -> M unit) (p : Process) :
  bind (with_logger (sys_exit_log e code extra None)) k p
  = with_logger (sys_exit_log e code extra None) p.
Proof.
  unfold bind, with_logger, sys_exit_log.
  destruct (get_error_details e extra None) as [[c m] | x]; reflexivity.
Qed.

Lemma connect_database_absent (database_config : DatabaseConfig) (p : Process)
    (names : list string) :
  server_database_names server (mkClient (url database_config) (timeout database_config))
    = Ret names ->
  main_database_name database_config ∉ names ->
  connect errs server database_config p
  = with_logger (sys_exit_log (Databases_NotFoundError errs) ENODATA
                   (Some [("database_name", main_database_name database_config)]) None)
      (with_client database_config p).
Proof.
  intros Hprobe Habsent. unfold connect.
  unfold bind at 1. unfold set_cls at 1. fold (with_client database_config p).
  unfold bind at 1. unfold try_except_connection, await. rewrite Hprobe.
  rewrite bool_decide_eq_false_2 by assumption.
  apply bind_exit.
Qed.

Lemma connect_collection_absent (database_config : DatabaseConfig) (p : Process)
    (names collection_names : list string) :
  server_database_names server (mkClient (url database_config) (timeout database_config))
    = Ret names ->
  main_database_name database_config ∈ names ->
  server_collection_names server
    (mkDatabase (mkClient (url database_config) (timeout database_config))
       (main_database_name database_config)) = Ret collection_names ->
  main_collection_name database_config ∉ collection_names ->
  connect errs server database_config p
  = with_logger (sys_exit_log (Collections_NotFoundError errs) ENODATA
                   (Some [("database_name", main_database_name database_config);
                          ("collection_name", main_collection_name database_config)]) None)
      (with_main_database database_config p).
Proof.
  intros Hprobe Hdb Hcolls Habsent. unfold connect.
  unfold bind at 1. unfold set_cls at 1. fold (with_client database_config p).
  unfold bind at 1. unfold try_except_connection, await. rewrite Hprobe.
  rewrite bool_decide_eq_true_2 by assumption.
  unfold bind at 1. unfold ret at 1.
  unfold bind at 1. unfold set_cls at 1.
  unfold bind at 1. rewrite Hcolls.
  rewrite bool_decide_eq_false_2 by assumption.
  apply bind_exit.
Qed.

(** The process after a successful [initialize]. *)
Lemma connect_succeeds (database_config : DatabaseConfig) (p : Process)
    (names collection_names : list string) :
  server_database_names server (mkClient (url database_config) (timeout database_config))
    = Ret names ->
  main_database_name database_config ∈ names ->
  server_collection_names server
    (mkDatabase (mkClient (url database_config) (timeout database_config))
       (main_database_name database_config)) = Ret collection_names ->
  main_collection_name database_config ∈ collection_names ->
  connect errs server database_config p
  = (Ret tt,
     {| cls :=
          {| __client := Some (mkClient (url database_config) (timeout database_config));
             __database_config := __database_config (cls p);
             __main_collection :=
               Some (mkCollection
                       (mkDatabase (mkClient (url database_config) (timeout database_config))
                          (main_database_name database_config))
                       (main_collection_name database_config));
             __main_database :=
               Some (mkDatabase (mkClient (url database_config) (timeout database_config))
                       (main_database_name database_config)) |};
        logger := logger p; closed := closed p |}).
Proof.
  intros Hprobe Hdb Hcolls Hcoll. run.
  rewrite Hprobe, Hcolls.
  rewrite !bool_decide_eq_true_2 by assumption.
  reflexivity.
Qed.

(** If lines 149-173 return, both listings answered and hold the names. *)
Lemma connect_returns (database_config : DatabaseConfig) (p : Process) :
  fst (connect errs server database_config p) = Ret tt ->
  exists names collection_names,
    server_database_names server (mkClient (url database_config) (timeout database_config))
      = Ret names
    /\ main_database_name database_config ∈ names
    /\ server_collection_names server
         (mkDatabase (mkClient (url database_config) (timeout database_config))
            (main_database_name database_config)) = Ret collection_names
    /\ main_collection_name database_config ∈ collection_names.
Proof.
  intros Hret.
  destruct (server_database_names server
              (mkClient (url database_config) (timeout database_config)))
    as [names | x] eqn:Hprobe.
  - destruct (decide (main_database_name database_config ∈ names)) as [Hdb | Hdb].
    + destruct (server_collection_names server
                  (mkDatabase (mkClient (url database_config) (timeout database_config))
                     (main_database_name database_config)))
        as [collection_names | x] eqn:Hcolls.
      * destruct (decide (main_collection_name database_config ∈ collection_names))
          as [Hcoll | Hcoll].
        -- eauto 10.
        -- rewrite (connect_collection_absent _ _ _ _ Hprobe Hdb Hcolls Hcoll) in Hret.
           now apply sys_exit_log_raises_in in Hret.
      * exfalso. revert Hret. run. rewrite Hprobe, Hcolls.
        rewrite bool_decide_eq_true_2 by assumption. discriminate.
    + rewrite (connect_database_absent _ _ _ Hprobe Hdb) in Hret.
      now apply sys_exit_log_raises_in in Hret.
  - exfalso.
    destruct x;
      try (rewrite connect_probe_fails in Hret by (rewrite Hprobe; auto);
           now apply sys_exit_log_raises_in in Hret);
      revert Hret; run; rewrite Hprobe; discriminate.
Qed.

(** The listing of the collection names is awaited outside the [try]: its
    exception leaves [initialize] as it is, not as [SystemExit]. *)
Lemma initialize_collection_listing_fails (database_config : DatabaseConfig)
    (p : Process) (names : list string) (x : Exc) :
  __database_config (cls p) = None ->
  server_database_names server (mkClient (url database_config) (timeout database_config))
    = Ret names ->
  main_database_name database_config ∈ names ->
  server_collection_names server
    (mkDatabase (mkClient (url database_config) (timeout database_config))
       (main_database_name database_config)) = Raise x ->
  initialize errs server database_config p
  = (Raise x, with_main_database database_config p).
Proof.
  intros Hnone Hprobe Hdb Hcolls.
  rewrite (initialize_no_config _ _ Hnone).
  unfold with_main_database, with_client. run. rewrite Hprobe, Hcolls.
  now rewrite bool_decide_eq_true_2 by assumption.
Qed.

Lemma exits_logging_code_intro (e : ResponseError) (code : Z)
    (kv : string * string) (rest : list (string * string))
    (p : Process) (r : Result unit * Process) :
  resolvable e = true ->
  r = with_logger (sys_exit_log e code (Some (kv :: rest)) None) p ->
  exits_logging_code e code (kv :: rest) p r.
Proof.
  intros Hres ->.
  destruct (details_carry_context e kv rest Hres) as (sc & m & Hdetails).
  exists sc, m. split; [exact Hdetails |].
  unfold with_logger, sys_exit_log. now rewrite Hdetails.
Qed.

(** C3: what a failing [initialize] does.  In a process with no cached
    configuration (every process the methods produce, by
    [reachable_no_config]) and with error constants that resolve:
    a connection failure or a timeout of the listing of the database names
    raises [SystemExit(EIO)]; a main database name that is not listed, and
    a main collection name that the main database does not list, raise
    [SystemExit(ENODATA)]; and if the call returns, the server answered both
    listings and they hold the two names.  But on each of the three exits
    the context (the URL, the database name, both names) only reaches the
    message of the details that [sys_exit_log] resolves: the one record
    written to the log is the status code of the error constant, neither
    its message nor the context. *)
Theorem initialize_exit_logs_status_code (database_config : DatabaseConfig) (p : Process) :
  __database_config (cls p) = None ->
  let client := mkClient (url database_config) (timeout database_config) in
  let database := mkDatabase client (main_database_name database_config) in
  (server_database_names server client = Raise ConnectionFailure
   \/ server_database_names server client = Raise ServerSelectionTimeoutError ->
   resolvable (Client_ConnectionError errs) = true ->
   exits_logging_code (Client_ConnectionError errs) EIO
     [("url", url database_config)]
     (with_client database_config p)
     (initialize errs server database_config p))
  /\ (forall names,
      server_database_names server client = Ret names ->
      main_database_name database_config ∉ names ->
      resolvable (Databases_NotFoundError errs) = true ->
      exits_logging_code (Databases_NotFoundError errs) ENODATA
        [("database_name", main_database_name database_config)]
        (with_client database_config p)
        (initialize errs server database_config p))
  /\ (forall names collection_names,
      server_database_names server client = Ret names ->
      main_database_name database_config ∈ names ->
      server_collection_names server database = Ret collection_names ->
      main_collection_name database_config ∉ collection_names ->
      resolvable (Collections_NotFoundError errs) = true ->
      exits_logging_code (Collections_NotFoundError errs) ENODATA
        [("database_name", main_database_name database_config);
         ("collection_name", main_collection_name database_config)]
        (with_main_database database_config p)
        (initialize errs server database_config p))
  /\ (fst (initialize errs server database_config p) = Ret tt ->
      exists names collection_names,
        server_database_names server client = Ret names
        /\ main_database_name database_config ∈ names
        /\ server_collection_names server database = Ret collection_names
        /\ main_collection_name database_config ∈ collection_names).
Proof.
  intros Hnone client database.
  rewrite (initialize_no_config _ _ Hnone).
  repeat apply conj.
  - intros Hprobe Hres. apply exits_logging_code_intro; [exact Hres |].
    now apply connect_probe_fails.
  - intros names Hprobe Hdb Hres. apply exits_logging_code_intro; [exact Hres |].
    now apply connect_database_absent with names.
  - intros names collection_names Hprobe Hdb Hcolls Hcoll Hres.
    apply exits_logging_code_intro; [exact Hres |].
    now apply connect_collection_absent with names collection_names.
  - apply connect_returns.
Qed.

(** *** Closing *)

(** [close] with the client reference set. *)
Lemma close_with_client (p : Process) (client : AsyncIOMotorClient) :
  __client (cls p) = Some client ->
  close errs p
  = (Ret tt, {| cls := set_database_config None (cls p);
                logger := logger p; closed := closed p ++ [client] |}).
Proof.
  intros Hclient. unfold close, bind, get_cls, set_cls, client_close.
  now rewrite Hclient.
Qed.

(** C4, as the code has it: with the client reference set, [close] clears
    the cached configuration and calls [close()] on the client, and leaves
    the reference and the cached handles in place, so that a second [close]
    does the same again; with the reference [None], [close] ends the call
    through [Client.CloseNotAllowedError] with [EIO]. *)
Theorem close_contract (p : Process) :
  (forall client, __client (cls p) = Some client ->
     close errs p
     = (Ret tt, {| cls := set_database_config None (cls p);
                   logger := logger p; closed := closed p ++ [client] |})
     /\ close errs (snd (close errs p))
        = (Ret tt, {| cls := set_database_config None (cls p);
                      logger := logger p; closed := closed p ++ [client; client] |}))
  /\ (__client (cls p) = None ->
      exits (Client_CloseNotAllowedError errs) EIO None p (close errs p)).
Proof.
  split.
  - intros client Hclient.
    rewrite (close_with_client p client Hclient). split; [reflexivity |].
    cbn [snd]. rewrite (close_with_client _ client) by exact Hclient.
    cbn [cls logger closed]. now rewrite <- app_assoc.
  - intros Hnone. apply exits_intro.
    unfold close, bind, get_cls. now rewrite Hnone.
Qed.

(** With a cached configuration [initialize] is its guard. *)
Lemma initialize_cached (database_config cached : DatabaseConfig) (p : Process) :
  __database_config (cls p) = Some cached ->
  initialize errs server database_config p
  = if bool_decide (database_config = cached) then
      match __client (cls p) with
      | Some _ => with_logger (log_as_warning (Client_AlreadyOpenError errs) None None) p
      | None =>
          with_logger (sys_exit_log (Client_InconsistencyError errs) EIO None None) p
      end
    else with_logger (sys_exit_log (Client_ReinitializeConfigError errs) EIO None None) p.
Proof.
  intros Hcfg. unfold initialize. unfold bind at 1. unfold get_cls. rewrite Hcfg.
  destruct (bool_decide (database_config = cached));
    [destruct (__client (cls p)) |]; try reflexivity; apply bind_exit.
Qed.

(** An [initialize] that returns leaves a client reference. *)
Lemma initialize_returns_client (database_config : DatabaseConfig) (p : Process) :
  fst (initialize errs server database_config p) = Ret tt ->
  exists client,
    __client (cls (snd (initialize errs server database_config p))) = Some client.
Proof.
  destruct (__database_config (cls p)) as [cached |] eqn:Hcfg.
  - rewrite (initialize_cached _ _ _ Hcfg).
    destruct (bool_decide (database_config = cached));
      [destruct (__client (cls p)) as [client |] eqn:Hc |].
    + intros _. exists client. unfold with_logger.
      destruct (log_as_warning (Client_AlreadyOpenError errs) None None (logger p)).
      exact Hc.
    + intros Hret. now apply sys_exit_log_raises_in in Hret.
    + intros Hret. now apply sys_exit_log_raises_in in Hret.
  - rewrite (initialize_no_config _ _ Hcfg). intros Hret.
    destruct (connect_returns _ _ Hret) as (names & cnames & H1 & H2 & H3 & H4).
    rewrite (connect_succeeds _ _ _ _ H1 H2 H3 H4). eauto.
Qed.

(** C10: [close] after an [initialize] that returned itself returns, resets
    the cached configuration and nothing else: the client reference stays
    set and the accessors still give the handles of that [initialize]. *)
Theorem close_keeps_client_and_handles (database_config : DatabaseConfig) (p : Process) :
  fst (initialize errs server database_config p) = Ret tt ->
  let p1 := snd (initialize errs server database_config p) in
  let p2 := snd (close errs p1) in
  fst (close errs p1) = Ret tt
  /\ cls p2 = set_database_config None (cls p1)
  /\ __client (cls p2) = __client (cls p1)
  /\ __client (cls p2) <> None
  /\ main_database p2 = (Ret (__main_database (cls p1)), p2)
  /\ main_collection p2 = (Ret (__main_collection (cls p1)), p2)
  /\ (__database_config (cls p) = None ->
      __client (cls p2)
        = Some (mkClient (url database_config) (timeout database_config))
      /\ __main_database (cls p2)
        = Some (mkDatabase (mkClient (url database_config) (timeout database_config))
                  (main_database_name database_config))
      /\ __main_collection (cls p2)
        = Some (mkCollection
                  (mkDatabase (mkClient (url database_config) (timeout database_config))
                     (main_database_name database_config))
                  (main_collection_name database_config))).
Proof.
  intros Hret p1 p2.
  destruct (initialize_returns_client _ _ Hret) as [client Hclient].
  fold p1 in Hclient.
  pose proof (close_with_client p1 client Hclient) as Hclose.
  subst p2. rewrite Hclose. cbn [fst snd cls].
  repeat apply conj; try reflexivity.
  - cbn. rewrite Hclient. discriminate.
  - intros Hcfg. subst p1.
    rewrite (initialize_no_config _ _ Hcfg) in *.
    destruct (connect_returns _ _ Hret) as (names & cnames & H1 & H2 & H3 & H4).
    rewrite (connect_succeeds _ _ _ _ H1 H2 H3 H4). cbn. auto.
Qed.

(** *** Lookups *)

(** C5: the three ways of [get_collection].  Both names [None]: the cached
    main collection, as [main_collection] gives it.  Both names strings: the
    database is the one [get_database] resolves (an error of [get_database]
    is the error of the call); the handle of the collection when its name
    is among the collection names of that database, and
    [Collections.NotFoundError] raised when it is not.  One name [None] and
    the other a string: [Collections.WrongTypeError] raised. *)
Theorem get_collection_dispatch (p : Process) (dname cname : string) :
  get_collection errs server None None p = main_collection p
  /\ get_collection errs server None (Some cname) p
     = (Raise (Raised (Collections_WrongTypeError errs)), p)
  /\ get_collection errs server (Some dname) None p
     = (Raise (Raised (Collections_WrongTypeError errs)), p)
  /\ (forall x p',
      get_database errs server (Some dname) p = (Raise x, p') ->
      get_collection errs server (Some dname) (Some cname) p = (Raise x, p'))
  /\ (forall db p' names,
      get_database errs server (Some dname) p = (Ret (Some db), p') ->
      server_collection_names server db = Ret names ->
      (cname ∈ names ->
       get_collection errs server (Some dname) (Some cname) p
       = (Ret (Some (mkCollection db cname)), p'))
      /\ (cname ∉ names ->
          get_collection errs server (Some dname) (Some cname) p
          = (Raise (Raised (Collections_NotFoundError errs)), p'))).
Proof.
  repeat apply conj; try reflexivity.
  - intros x p' Hdb. unfold get_collection, bind at 1. now rewrite Hdb.
  - intros db p' names Hdb Hnames.
    split; intros Hin; unfold get_collection, bind at 1; rewrite Hdb;
      unfold bind, await, ret, raise; rewrite Hnames.
    + now rewrite bool_decide_eq_true_2.
    + now rewrite bool_decide_eq_false_2.
Qed.

(** What [get_database] does for a name: the handle on the client when the
    name is listed, [Databases.NotFoundError] when it is not. *)
Lemma get_database_named (p : Process) (client : AsyncIOMotorClient)
    (name : string) (names : list string) :
  __client (cls p) = Some client ->
  server_database_names server client = Ret names ->
  get_database errs server (Some name) p
  = if bool_decide (name ∈ names) then (Ret (Some (mkDatabase client name)), p)
    else (Raise (Raised (Databases_NotFoundError errs)), p).
Proof.
  intros Hclient Hnames. run. rewrite Hclient, Hnames.
  destruct (bool_decide (name ∈ names)); [now rewrite Hclient | reflexivity].
Qed.

Lemma get_database_main (p : Process) :
  get_database errs server None p = main_database p.
Proof. reflexivity. Qed.

End MongoFacts.

(** ** More of the connection manager *)

Section ManagerFacts.
Context `{DictStr}.
Variable errs : DatabaseErrors.
Variable server : Server.

(** Whatever its outcome, [initialize] without a cached configuration
    leaves the reference to the client it built. *)
Lemma connect_sets_client (database_config : DatabaseConfig) (p : Process) :
  __client (cls (snd (connect errs server database_config p)))
  = Some (mkClient (url database_config) (timeout database_config)).
Proof.
  destruct (server_database_names server
              (mkClient (url database_config) (timeout database_config)))
    as [names | x] eqn:Hprobe.
  - destruct (decide (main_database_name database_config ∈ names)) as [Hdb | Hdb].
    + destruct (server_collection_names server
                  (mkDatabase (mkClient (url database_config) (timeout database_config))
                     (main_database_name database_config)))
        as [collection_names | x] eqn:Hcolls.
      * destruct (decide (main_collection_name database_config ∈ collection_names))
          as [Hcoll | Hcoll].
        -- now rewrite (connect_succeeds errs server _ p _ _ Hprobe Hdb Hcolls Hcoll).
        -- rewrite (connect_collection_absent errs server _ p _ _ Hprobe Hdb Hcolls Hcoll).
           unfold with_logger.
           now destruct (sys_exit_log _ _ _ _ _).
      * unfold connect, bind, set_cls, try_except_connection, await, ret.
        cbn. rewrite Hprobe. rewrite bool_decide_eq_true_2 by assumption.
        cbn. now rewrite Hcolls.
    + rewrite (connect_database_absent errs server _ p _ Hprobe Hdb).
      unfold with_logger. now destruct (sys_exit_log _ _ _ _ _).
  - destruct x;
      try (rewrite connect_probe_fails by (rewrite Hprobe; auto);
           unfold with_logger; now destruct (sys_exit_log _ _ _ _ _));
      unfold connect, bind, set_cls, try_except_connection, await, ret;
      cbn; now rewrite Hprobe.
Qed.

(** [initialize] without a cached configuration returns exactly when the
    server answers both listings and they hold the main database and the
    main collection; it then stores the client and the two handles, and
    leaves the cached configuration, the log and the closed clients as they
    were. *)
Theorem initialize_returns_iff (database_config : DatabaseConfig) (p : Process) :
  __database_config (cls p) = None ->
  let client := mkClient (url database_config) (timeout database_config) in
  let database := mkDatabase client (main_database_name database_config) in
  (fst (initialize errs server database_config p) = Ret tt
   <-> exists names collection_names,
         server_database_names server client = Ret names
         /\ main_database_name database_config ∈ names
         /\ server_collection_names server database = Ret collection_names
         /\ main_collection_name database_config ∈ collection_names)
  /\ (fst (initialize errs server database_config p) = Ret tt ->
      snd (initialize errs server database_config p)
      = {| cls := {| __client := Some client;
                     __database_config := None;
                     __main_collection :=
                       Some (mkCollection database (main_collection_name database_config));
                     __main_database := Some database |};
           logger := logger p; closed := closed p |}).
Proof.
  intros Hnone client database.
  rewrite (initialize_no_config errs server _ _ Hnone).
  split; [split |].
  - apply connect_returns.
  - intros (names & cnames & H1 & H2 & H3 & H4).
    now rewrite (connect_succeeds errs server _ p _ _ H1 H2 H3 H4).
  - intros Hret.
    destruct (connect_returns errs server _ _ Hret) as (names & cnames & H1 & H2 & H3 & H4).
    rewrite (connect_succeeds errs server _ p _ _ H1 H2 H3 H4). cbn [snd].
    now rewrite Hnone.
Qed.

Lemma list_database_names_frame (p : Process) :
  snd (list_database_names server p) = p.
Proof.
  unfold list_database_names, bind, get_cls, await, raise.
  now destruct (__client (cls p)).
Qed.

Lemma get_database_frame (p : Process) (database_name : option string) :
  snd (get_database errs server database_name p) = p.
Proof.
  destruct database_name as [name |]; [| reflexivity].
  unfold get_database. unfold bind at 1.
  pose proof (list_database_names_frame p) as Hnames.
  destruct (list_database_names server p) as [[names | x] p'] eqn:Hlist;
    cbn [snd] in Hnames; subst p'; [| reflexivity].
  unfold bind, get_cls, ret, raise.
  destruct (bool_decide (name ∈ names)); [| reflexivity].
  now destruct (__client (cls p)).
Qed.

Lemma get_collection_frame (p : Process) (database_name collection_name : option string) :
  snd (get_collection errs server database_name collection_name p) = p.
Proof.
  destruct database_name as [dname |], collection_name as [cname |];
    try reflexivity.
  unfold get_collection. unfold bind at 1.
  pose proof (get_database_frame p (Some dname)) as Hdb.
  destruct (get_database errs server (Some dname) p) as [[[db |] | x] p'];
    cbn [snd] in Hdb; subst p'; try reflexivity.
  unfold bind, await, ret, raise.
  destruct (server_collection_names server db) as [names | x]; [| reflexivity].
  now destruct (bool_decide (cname ∈ names)).
Qed.

(** The lookups and the accessors leave the process as it is, whatever
    they return or raise. *)
Theorem lookups_leave_process (p : Process) (database_name collection_name : option string) :
  snd (get_collection errs server database_name collection_name p) = p
  /\ snd (get_database errs server database_name p) = p
  /\ snd (list_database_names server p) = p
  /\ snd (main_collection p) = p
  /\ snd (main_database p) = p.
Proof.
  repeat apply conj; try reflexivity.
  - apply get_collection_frame.
  - apply get_database_frame.
  - apply list_database_names_frame.
Qed.

(** [get_database]: [None] gives the cached main database, set or not; a
    name asked before any client exists fails on the attribute access; a
    name asked with a client gives the handle of that name on the client
    when the server lists the name, [Databases.NotFoundError] when it does
    not, and what the listing raises when it raises. *)
Theorem get_database_resolves (p : Process) (name : string) :
  get_database errs server None p = (Ret (__main_database (cls p)), p)
  /\ (__client (cls p) = None ->
      get_database errs server (Some name) p = (Raise AttributeError, p))
  /\ (forall client, __client (cls p) = Some client ->
      get_database errs server (Some name) p
      = match server_database_names server client with
        | Ret names =>
            if bool_decide (name ∈ names)
            then (Ret (Some (mkDatabase client name)), p)
            else (Raise (Raised (Databases_NotFoundError errs)), p)
        | Raise x => (Raise x, p)
        end).
Proof.
  repeat apply conj.
  - reflexivity.
  - intros Hnone.
    unfold get_database, list_database_names, bind, get_cls, raise.
    now rewrite Hnone.
  - intros client Hclient.
    destruct (server_database_names server client) as [names | x] eqn:Hnames.
    + now apply get_database_named.
    + unfold get_database, list_database_names, bind, get_cls, await.
      now rewrite Hclient, Hnames.
Qed.

(** A collection asked by name before any client exists fails on the
    attribute access, and not with a not-found error. *)
Theorem get_collection_without_client (p : Process) (dname cname : string) :
  __client (cls p) = None ->
  get_collection errs server (Some dname) (Some cname) p = (Raise AttributeError, p).
Proof.
  intros Hnone.
  unfold get_collection, get_database, list_database_names, bind, get_cls, raise.
  now rewrite Hnone.
Qed.

(** The scoped acquisition.  From a process without a cached configuration
    and with a body that keeps the client reference, the context gives the
    outcome of [initialize] followed by the body, untouched, and on every
    way out it has called [close()] on the client that [initialize] built,
    once, after the body, and reset the cached configuration. *)
Theorem mongodb_context_closes {A : Type} (database_config : DatabaseConfig)
    (body : M A) (p : Process) :
  __database_config (cls p) = None ->
  (forall q, __client (cls (snd (body q))) = __client (cls q)) ->
  let inner := (initialize errs server database_config ;;; body) p in
  mongodb_context errs server database_config body p
  = (fst inner,
     {| cls := set_database_config None (cls (snd inner));
        logger := logger (snd inner);
        closed := closed (snd inner)
                  ++ [mkClient (url database_config) (timeout database_config)] |}).
Proof.
  intros Hnone Hbody inner.
  assert (Hclient : __client (cls (snd inner))
                    = Some (mkClient (url database_config) (timeout database_config))).
  { subst inner. unfold bind.
    rewrite (initialize_no_config errs server _ _ Hnone).
    pose proof (connect_sets_client database_config p) as Hset.
    destruct (connect errs server database_config p) as [[[] | x] p1];
      cbn [snd] in Hset |- *; [| exact Hset].
    now rewrite Hbody. }
  unfold mongodb_context, try_finally. fold inner.
  destruct inner as [r p'] eqn:Hinner. cbn [fst snd] in *.
  now rewrite (close_with_client errs p' _ Hclient).
Qed.

End ManagerFacts.

(** ** The test deployment *)

(** C1: the guard is never reached.  After [initialize] has returned, a
    second [initialize] with the same configuration returns with nothing
    logged, and one with another configuration returns as well, where the
    guard would warn and exit with [EIO]: no configuration is cached. *)
Theorem initialize_twice_skips_guard :
  fst (test_initialize test_database_config start) = Ret tt
  /\ __database_config (cls (snd (test_initialize test_database_config start))) = None
  /\ (test_initialize test_database_config ;;; test_initialize test_database_config) start
     = (Ret tt, snd (test_initialize test_database_config start))
  /\ logger (snd ((test_initialize test_database_config ;;;
                   test_initialize test_database_config) start)) = []
  /\ test_database_config <> other_config
  /\ fst ((test_initialize test_database_config ;;; test_initialize other_config) start)
     = Ret tt.
Proof. repeat split; discriminate. Qed.

(** C2: [initialize] returns in the test deployment with the client, the
    main database and the main collection set, and with no cached
    configuration: the client is set while the configuration is [None]. *)
Theorem initialize_leaves_config_unset :
  test_initialize test_database_config start
  = (Ret tt,
     {| cls :=
          {| __client := Some (mkClient "mongodb://localhost:28017" 1000);
             __database_config := None;
             __main_collection :=
               Some (mkCollection
                       (mkDatabase (mkClient "mongodb://localhost:28017" 1000)
                          "mock_database")
                       "mock_collection");
             __main_database :=
               Some (mkDatabase (mkClient "mongodb://localhost:28017" 1000)
                       "mock_database") |};
        logger := []; closed := [] |}).
Proof. reflexivity. Qed.

(** The end-to-end scenario: the test deployment asked for the collection
    [ghost].  [initialize] exits with [ENODATA], and the log holds the
    status code of [Collections.NotFoundError] and nothing else. *)
Lemma initialize_exit_logs_status_code_witness :
  fst (test_initialize ghost_config start) = Raise (SystemExit ENODATA)
  /\ logger (snd (test_initialize ghost_config start)) = [mkLog ERROR 404].
Proof.
  destruct (@initialize_exit_logs_status_code test_dict_str test_errors test_server
              ghost_config start eq_refl) as (_ & _ & Hghost & _).
  destruct (Hghost ["admin"; "config"; "local"; "mock_database"]
              ["mock_collection"; "other_collection"]) as (sc & m & Hdetails & Hrun).
  - reflexivity.
  - cbn. rewrite !elem_of_cons. auto 10.
  - reflexivity.
  - cbn. rewrite !not_elem_of_cons.
    repeat split; try discriminate. apply not_elem_of_nil.
  - reflexivity.
  - assert (Hsc : sc = 404) by (vm_compute in Hdetails; congruence).
    unfold test_initialize. rewrite Hrun, Hsc. split; reflexivity.
Defined.

(** C4: after a successful [initialize], closing twice is not fatal: the
    second [close] returns and closes the same client again. *)
Lemma close_twice_returns :
  fst ((test_initialize test_database_config ;;; test_close ;;; test_close) start) = Ret tt
  /\ fst ((test_initialize test_database_config ;;; test_close ;;; test_close) start)
     <> Raise (SystemExit EIO)
  /\ closed (snd ((test_initialize test_database_config ;;; test_close ;;; test_close)
                    start))
     = [mkClient "mongodb://localhost:28017" 1000;
        mkClient "mongodb://localhost:28017" 1000].
Proof. repeat split; discriminate. Qed.

(** [close] in the class body, before any [initialize], exits with [EIO]. *)
Example close_never_initialized :
  test_close start
  = (Raise (SystemExit EIO),
     {| cls := class_body; logger := [mkLog ERROR 405]; closed := [] |}).
Proof. reflexivity. Qed.

(** [close] after [initialize] in the test deployment. *)
Lemma close_keeps_client_and_handles_witness :
  __client (cls (snd (test_close (snd (test_initialize test_database_config start)))))
  = Some (mkClient "mongodb://localhost:28017" 1000)
  /\ __main_database
       (cls (snd (test_close (snd (test_initialize test_database_config start)))))
     = Some (mkDatabase (mkClient "mongodb://localhost:28017" 1000) "mock_database").
Proof.
  destruct (@close_keeps_client_and_handles test_dict_str test_errors test_server
              test_database_config start eq_refl)
    as (_ & _ & _ & _ & _ & _ & Hhandles).
  destruct (Hhandles eq_refl) as (Hclient & Hdb & _).
  split; [exact Hclient | exact Hdb].
Defined.

(** [initialize] in the test deployment returns: the server lists
    [mock_database] and [mock_collection]. *)
Lemma initialize_returns_iff_witness :
  fst (test_initialize test_database_config start) = Ret tt.
Proof.
  destruct (@initialize_returns_iff test_dict_str test_errors test_server
              test_database_config start eq_refl) as [[_ Hreturns] _].
  apply Hreturns.
  exists ["admin"; "config"; "local"; "mock_database"],
         ["mock_collection"; "other_collection"].
  repeat split.
  - cbn. rewrite !elem_of_cons. auto 10.
  - cbn. rewrite !elem_of_cons. auto.
Defined.

(** After [initialize], [close] and a failed [initialize] no configuration
    is cached. *)
Lemma reachable_no_config_witness :
  __database_config
    (cls (snd (test_initialize ghost_config
                 (snd (test_close (snd (test_initialize test_database_config start)))))))
  = None.
Proof.
  apply (@reachable_no_config test_dict_str test_errors test_server).
  apply reachable_initialize, reachable_close, reachable_initialize, reachable_start.
Defined.

(** A collection asked by name in the class body. *)
Lemma get_collection_without_client_witness :
  @get_collection test_errors test_server (Some "mock_database") (Some "mock_collection")
    start
  = (Raise AttributeError, start).
Proof.
  apply (get_collection_without_client test_errors test_server start). reflexivity.
Defined.

(** The context around a lookup of a collection that does not exist: the
    lookup raises, and the client is closed all the same. *)
Lemma mongodb_context_closes_witness :
  @mongodb_context test_dict_str test_errors test_server _ test_database_config
    (@get_collection test_errors test_server (Some "mock_database") (Some "ghost")) start
  = (Raise (Raised (Collections_NotFoundError test_errors)),
     {| cls :=
          set_database_config None
            (cls (snd (test_initialize test_database_config start)));
        logger := [];
        closed := [mkClient "mongodb://localhost:28017" 1000] |}).
Proof.
  rewrite (@mongodb_context_closes test_dict_str test_errors test_server _
             test_database_config
             (@get_collection test_errors test_server (Some "mock_database") (Some "ghost"))
             start eq_refl).
  - reflexivity.
  - intros q.
    now rewrite (get_collection_frame test_errors test_server q).
Defined.

(** ** The test helpers *)

Lemma same_set_iff (xs ys : list string) :
  list_to_set xs =@{gset string} list_to_set ys <-> (forall x, x ∈ xs <-> x ∈ ys).
Proof.
  rewrite set_eq. split; intros Hsame x; specialize (Hsame x);
    rewrite !elem_of_list_to_set in *; exact Hsame.
Qed.

(** [document_ids_are_correct] and [collections_exists] never raise, and
    answer [True] exactly when the two lists have the same members: neither
    the order of the items nor how often one occurs is looked at. *)
Theorem silent_helpers_compare_members (test expected : list string) :
  (TestUtils.document_ids_are_correct test expected = TestUtils.Returns true
   <-> (forall x, x ∈ test <-> x ∈ expected))
  /\ (TestUtils.document_ids_are_correct test expected = TestUtils.Returns false
      <-> ~ (forall x, x ∈ test <-> x ∈ expected))
  /\ TestUtils.collections_exists test expected
     = TestUtils.document_ids_are_correct test expected.
Proof.
  unfold TestUtils.collections_exists, TestUtils.document_ids_are_correct,
    TestUtils.assert_equal.
  cbn [TestUtils._ordered negb TestUtils.py_eq].
  rewrite <- same_set_iff.
  destruct (bool_decide_reflect (list_to_set test =@{gset string} list_to_set expected))
    as [Heq | Hneq].
  - repeat split; try reflexivity; try discriminate; intuition.
  - repeat split; try reflexivity; try discriminate; intuition.
Qed.




